(** * crewAI flow visualisation: layout pipeline, artifact writing, tool conversion

    A shallow embedding of [src/crewai/flow/flow_visualizer.py], of the tool
    classes and the decorator of [src/crewai/tools/base_tool.py], of
    [src/crewai/cli/install_crew.py] and of [LongTermMemory.save] in
    [src/crewai/memory/long_term/long_term_memory.py].

    [FlowPlot.plot] calls into modules of the repository that are described by
    the specification only ([crewai.flow.utils], [crewai.flow.visualization_utils],
    [crewai.flow.html_template_handler], [crewai.flow.legend_generator]); the
    level assigner and the position computer are modelled from the
    specification, the rendering helpers are taken as parameters. *)

From Stdlib Require Import String Ascii List ZArith QArith Lia.
From stdpp Require Import base option list gmap strings fin_sets.

Open Scope string_scope.
Open Scope list_scope.
Open Scope nat_scope.
#[local] Set Warnings "-register-all,-clear-no-such-hyp".

(** ** Data model (specification, section 3) *)

Inductive NodeKind := KStart | KStep | KRouter | KCrewUnit.

Inductive EdgeKind := Normal | Conditional | Cyclic.

#[global] Instance EdgeKind_eq_dec : EqDecision EdgeKind.
Proof. solve_decision. Defined.

#[global] Instance NodeKind_eq_dec : EqDecision NodeKind.
Proof. solve_decision. Defined.

Record FlowGraphNode := {
  node_id : string;
  node_kind : NodeKind;
  node_outcomes : list string
}.

Record FlowGraphEdge := {
  edge_src : string;
  edge_dst : string;
  edge_kind : EdgeKind;
  edge_label : option string
}.

Record FlowGraph := {
  flow_nodes : list FlowGraphNode;
  flow_edges : list FlowGraphEdge
}.

Definition node_ids (g : FlowGraph) : list string := map node_id (flow_nodes g).

(** ** Level Assigner (specification, section 4.2)

    Modelled from the spec: the pass lives in [crewai.flow.utils], which is
    not among the sources.  Nodes are processed in declaration order; a node
    not yet visited has the levels of all its predecessors resolved first,
    depth-first, and is then placed one level below the deepest of them, or
    at level 0 when it has none; an edge from a node that is still being
    resolved closes a cycle, is reclassified cyclic and does not count. *)

Module LevelAssigner.

(** The state threaded through the forward pass: the levels fixed so far
    (a node is visited once it has a level or is on the resolution stack),
    and the positions, in the edge list, of the edges reclassified cyclic. *)
Record LAState := {
  la_levels : gmap string nat;
  la_cyclic : gset nat
}.

Definition la_empty : LAState := {| la_levels := ∅; la_cyclic := ∅ |}.

Definition mark_cyclic (i : nat) (st : LAState) : LAState :=
  {| la_levels := la_levels st; la_cyclic := {[ i ]} ∪ la_cyclic st |}.

Definition set_level (v : string) (l : nat) (st : LAState) : LAState :=
  {| la_levels := <[ v := l ]> (la_levels st); la_cyclic := la_cyclic st |}.

(** The predecessors of [v]: position and source of every edge into [v],
    in the order of the edge list; positions count from [i]. *)
Fixpoint incoming_from (i : nat) (es : list FlowGraphEdge) (v : string)
  : list (nat * string) :=
  match es with
  | [] => []
  | e :: es' =>
      if decide (edge_dst e = v)
      then (i, edge_src e) :: incoming_from (S i) es' v
      else incoming_from (S i) es' v
  end.

Definition incoming (es : list FlowGraphEdge) (v : string) : list (nat * string) :=
  incoming_from 0 es v.

(** Maximum predecessor level seen so far; [None] before the first one. *)
Definition max_seen (acc : option nat) (l : nat) : option nat :=
  match acc with
  | None => Some l
  | Some m => Some (Nat.max m l)
  end.

(** One more than the maximum predecessor level, 0 without predecessors. *)
Definition level_of (acc : option nat) : nat :=
  match acc with
  | None => 0
  | Some m => S m
  end.

(** Resolve the predecessors of the node on top of [in_progress], in order.
    A predecessor still being resolved closes a cycle: its edge is
    reclassified and left out of the level computation.  [rec] resolves a
    predecessor that has not been visited. *)
Fixpoint resolve_preds (rec : string → LAState → option (nat * LAState))
    (in_progress : list string) (preds : list (nat * string))
    (acc : option nat) (st : LAState) : option (option nat * LAState) :=
  match preds with
  | [] => Some (acc, st)
  | (i, u) :: rest =>
      if decide (u ∈ in_progress)
      then resolve_preds rec in_progress rest acc (mark_cyclic i st)
      else
        match la_levels st !! u with
        | Some l => resolve_preds rec in_progress rest (max_seen acc l) st
        | None =>
            match rec u st with
            | None => None
            | Some (l, st') =>
                resolve_preds rec in_progress rest (max_seen acc l) st'
            end
        end
  end.

(** Modelled from the spec: depth-first resolution of [v]; [stack] holds the
    nodes that are being resolved.  The recursion of the description is
    bounded by [fuel]; [None] means the bound was hit. *)
Fixpoint resolve (fuel : nat) (es : list FlowGraphEdge) (stack : list string)
    (v : string) (st : LAState) : option (nat * LAState) :=
  match fuel with
  | O => None
  | S fuel' =>
      match resolve_preds (resolve fuel' es (v :: stack)) (v :: stack)
                          (incoming es v) None st with
      | None => None
      | Some (acc, st') =>
          let l := level_of acc in Some (l, set_level v l st')
      end
  end.

(** Process the nodes in declaration order, skipping visited ones. *)
Fixpoint assign_all (fuel : nat) (es : list FlowGraphEdge) (ns : list string)
    (st : LAState) : option LAState :=
  match ns with
  | [] => Some st
  | v :: rest =>
      match la_levels st !! v with
      | Some _ => assign_all fuel es rest st
      | None =>
          match resolve fuel es [] v st with
          | None => None
          | Some (_, st') => assign_all fuel es rest st'
          end
      end
  end.

(** The recursion depth never exceeds the number of distinct identifiers. *)
Definition depth_bound (g : FlowGraph) : nat :=
  S (length (flow_nodes g) + length (flow_edges g)).

Definition assign_with (fuel : nat) (g : FlowGraph) : option LAState :=
  assign_all fuel (flow_edges g) (node_ids g) la_empty.

Definition level_assigner (g : FlowGraph) : option LAState :=
  assign_with (depth_bound g) g.

(** The edge list after the pass, with the reclassified kinds. *)
Definition reclassify (st : LAState) (i : nat) (e : FlowGraphEdge) : FlowGraphEdge :=
  if decide (i ∈ la_cyclic st)
  then {| edge_src := edge_src e; edge_dst := edge_dst e;
          edge_kind := Cyclic; edge_label := edge_label e |}
  else e.

Definition classified_edges (g : FlowGraph) (st : LAState) : list FlowGraphEdge :=
  imap (reclassify st) (flow_edges g).

(** *** Invariants of the pass

    [processed] relates a predecessor that has been examined to the running
    maximum; [la_inv] is what holds of the state between two steps, for the
    resolution stack [stack] (innermost node first). *)

Definition universe (g : FlowGraph) : gset string :=
  list_to_set (node_ids g ++ map edge_src (flow_edges g)).

Definition pending (U : gset string) (stack : list string) (st : LAState) : nat :=
  size (U ∖ (list_to_set stack ∪ dom (la_levels st))).

Definition extends (st st' : LAState) : Prop :=
  la_levels st ⊆ la_levels st' ∧ la_cyclic st ⊆ la_cyclic st'.

Definition processed (st : LAState) (acc : option nat) (p : nat * string) : Prop :=
  p.1 ∈ la_cyclic st ∨
  ∃ l m, la_levels st !! p.2 = Some l ∧ acc = Some m ∧ l ≤ m.

Definition monotone_edges (es : list FlowGraphEdge) (st : LAState) : Prop :=
  ∀ i e lv, es !! i = Some e → i ∉ la_cyclic st →
    la_levels st !! edge_dst e = Some lv →
    ∃ lu, la_levels st !! edge_src e = Some lu ∧ lu < lv.

Definition cyclic_target_visited (es : list FlowGraphEdge) (stack : list string)
    (st : LAState) : Prop :=
  ∀ i e, es !! i = Some e → i ∈ la_cyclic st →
    is_Some (la_levels st !! edge_dst e) ∨ edge_dst e ∈ stack.

Definition cyclic_source_below (es : list FlowGraphEdge) (stack : list string)
    (st : LAState) : Prop :=
  ∀ i e l1 l2, es !! i = Some e → i ∈ la_cyclic st →
    edge_src e ≠ edge_dst e → stack = l1 ++ edge_dst e :: l2 → edge_src e ∈ l2.

Definition no_opposite_cyclic (es : list FlowGraphEdge) (st : LAState) : Prop :=
  ∀ i j e1 e2, es !! i = Some e1 → es !! j = Some e2 →
    edge_src e1 = edge_dst e2 → edge_dst e1 = edge_src e2 →
    edge_src e1 ≠ edge_dst e1 →
    i ∈ la_cyclic st → j ∈ la_cyclic st → False.

(** Paths along the edges of the graph, and graphs without a cycle. *)
Inductive reaches (es : list FlowGraphEdge) : string → string → Prop :=
  | reaches_edge i e :
      es !! i = Some e → reaches es (edge_src e) (edge_dst e)
  | reaches_trans x y z :
      reaches es x y → reaches es y z → reaches es x z.

Definition acyclic (es : list FlowGraphEdge) : Prop := ∀ x, ¬ reaches es x x.

(** Each node on the resolution stack is there as a predecessor of the one
    below it. *)
Definition stack_chain (es : list FlowGraphEdge) (stack : list string) : Prop :=
  ∀ l1 x y l2, stack = l1 ++ x :: y :: l2 → reaches es x y.

(** The running maximum only grows. *)
Definition acc_le (acc acc' : option nat) : Prop :=
  ∀ m, acc = Some m → ∃ m', acc' = Some m' ∧ m ≤ m'.

Record la_inv (es : list FlowGraphEdge) (stack : list string) (st : LAState) : Prop := {
  inv_nodup : NoDup stack;
  inv_stack_unset : ∀ x, x ∈ stack → la_levels st !! x = None;
  inv_monotone : monotone_edges es st;
  inv_target : cyclic_target_visited es stack st;
  inv_below : cyclic_source_below es stack st;
  inv_opposite : no_opposite_cyclic es st
}.

(** What a call that resolves an unvisited node guarantees. *)
Definition resolves (es : list FlowGraphEdge) (stack : list string)
    (rec : string → LAState → option (nat * LAState)) : Prop :=
  ∀ u st l st', u ∉ stack → la_levels st !! u = None → la_inv es stack st →
    rec u st = Some (l, st') →
    extends st st' ∧ la_levels st' !! u = Some l ∧ la_inv es stack st'.

End LevelAssigner.

(** ** Python results *)

Inductive ExnClass :=
  | ValueError | KeyError | RecursionError | ImportError
  | OSError | PermissionError | IsADirectoryError | FileNotFoundError
  | NotADirectoryError.

(** An exception instance; every class above derives from [Exception]. *)
Record PyExn := { exn_class : ExnClass; exn_msg : string }.

Inductive result (A : Type) : Type :=
  | Ok (a : A)
  | Raise (e : PyExn).
Arguments Ok {A} a.
Arguments Raise {A} e.

(** ** Graph extraction check and level assignment, as [plot] calls them *)

Definition declared (g : FlowGraph) (x : string) : bool :=
  bool_decide (x ∈ node_ids g).

Definition valid_edge (g : FlowGraph) (e : FlowGraphEdge) : bool :=
  declared g (edge_src e) && declared g (edge_dst e).

Definition valid_node (n : FlowGraphNode) : bool :=
  match node_kind n, node_outcomes n with
  | KRouter, [] => false
  | _, _ => true
  end.

(** The input contract of section 7: every trigger names a declared step and
    every router declares an outcome. *)
Definition valid_flow (g : FlowGraph) : bool :=
  forallb (valid_edge g) (flow_edges g) && forallb valid_node (flow_nodes g).

(** Modelled from the spec: [crewai.flow.utils.calculate_node_levels] is not
    among the sources.  Following sections 4.1, 4.2 and 7, a flow that breaks
    the input contract is reported to the caller, otherwise the Level
    Assigner's pass of [LevelAssigner.level_assigner] fixes the levels. *)
Definition calculate_node_levels (flow : FlowGraph) : result (gmap string nat) :=
  if valid_flow flow then
    match LevelAssigner.level_assigner flow with
    | Some st => Ok (LevelAssigner.la_levels st)
    | None => Raise {| exn_class := RecursionError;
                       exn_msg := "maximum recursion depth exceeded" |}
    end
  else Raise {| exn_class := ValueError; exn_msg := "input contract violation" |}.

(** ** Position Computer (specification, section 4.3) *)

Record LayoutConfig := { x_spacing : Q; y_spacing : Q }.

Definition level_members (flow : FlowGraph) (levels : gmap string nat) (L : nat)
  : list string :=
  filter (λ v, levels !! v = Some L) (node_ids flow).

Fixpoint index_in (v : string) (l : list string) : nat :=
  match l with
  | [] => 0
  | x :: l' => if decide (x = v) then 0 else S (index_in v l')
  end.

(** The [i]-th of [k] nodes of a level: the [k] slots are [spacing] apart and
    centred on the origin; the other axis is a fixed multiple of the level. *)
Definition slot (cfg : LayoutConfig) (i k L : nat) : Q * Q :=
  (((inject_Z (Z.of_nat i) - (inject_Z (Z.of_nat k) - 1) / 2) * x_spacing cfg)%Q,
   (inject_Z (Z.of_nat L) * y_spacing cfg)%Q).

Definition place (cfg : LayoutConfig) (flow : FlowGraph) (levels : gmap string nat)
    (v : string) (L : nat) : Q * Q :=
  let members := level_members flow levels L in
  slot cfg (index_in v members) (length members) L.

(** Modelled from the spec: [crewai.flow.visualization_utils.compute_positions]
    is not among the sources.  Nodes sharing a level are laid out in
    declaration order. *)
Definition compute_positions (cfg : LayoutConfig) (flow : FlowGraph)
    (levels : gmap string nat) : gmap string (Q * Q) :=
  foldl (λ acc v, match levels !! v with
                  | Some L => <[ v := place cfg flow levels v L ]> acc
                  | None => acc
                  end) ∅ (node_ids flow).

(** ** The network options text of [FlowPlot.plot] and how pyvis reads it *)

Definition dquote : ascii := "034"%char.
Definition newline : ascii := "010"%char.

Definition quoted (s : string) : string :=
  String dquote EmptyString +:+ s +:+ String dquote EmptyString.

Fixpoint spaces (n : nat) : string :=
  match n with
  | O => ""
  | S k => " " +:+ spaces k
  end.

Definition line (indent : nat) (s : string) : string :=
  spaces indent +:+ s +:+ String newline EmptyString.

(** The literal passed to [net.set_options], line by line with the
    indentation of the source. *)
Definition PLOT_OPTIONS : string :=
  String newline EmptyString
  +:+ line 12 "var options = {"
  +:+ line 16 (quoted "nodes" +:+ ": {")
  +:+ line 20 (quoted "font" +:+ ": {")
  +:+ line 24 (quoted "multi" +:+ ": " +:+ quoted "html")
  +:+ line 20 "}"
  +:+ line 16 "},"
  +:+ line 16 (quoted "physics" +:+ ": {")
  +:+ line 20 (quoted "enabled" +:+ ": false")
  +:+ line 16 "}"
  +:+ line 12 "}"
  +:+ spaces 8.


Definition is_char (c d : ascii) : bool := bool_decide (c = d).











(** ** The process environment: file system, working directory, output *)

Inductive FsNode :=
  | File (content : string)
  | Dir.

#[global] Instance FsNode_eq_dec : EqDecision FsNode.
Proof. solve_decision. Defined.

(** What [plot] itself did to the outside, in order. *)
Inductive Event :=
  | EvOpen (path : string)
  | EvWrite (path : string) (content : string)
  | EvPrint (text : string)
  | EvRmtree (path : string).

(** The file system holds directories and regular files, no links; a node is
    kept under its canonical absolute path ([/work/out.html]), the root is
    always there. *)
Record World := {
  w_fs : gmap string FsNode;      (* canonical absolute path to node *)
  w_cwd : string;                 (* the working directory, a canonical path *)
  w_readonly : gset string;       (* paths that cannot be opened for writing *)
  w_quota : option nat;           (* characters the device still takes; None: no limit *)
  w_rm_fault : option (PyExn * list string);
                                  (* when shutil.rmtree fails: what it raises and
                                     the paths it had removed by then *)
  w_getcwd_fault : option PyExn;  (* when os.getcwd() fails: what it raises *)
  w_print_fault : string → option PyExn;
                                  (* the texts the standard output does not
                                     take, and what print raises on them *)
  w_trace : list Event
}.

Definition with_fs (fs : gmap string FsNode) (w : World) : World :=
  {| w_fs := fs; w_cwd := w_cwd w; w_readonly := w_readonly w;
     w_quota := w_quota w; w_rm_fault := w_rm_fault w;
     w_getcwd_fault := w_getcwd_fault w; w_print_fault := w_print_fault w;
     w_trace := w_trace w |}.

Definition log (ev : Event) (w : World) : World :=
  {| w_fs := w_fs w; w_cwd := w_cwd w; w_readonly := w_readonly w;
     w_quota := w_quota w; w_rm_fault := w_rm_fault w;
     w_getcwd_fault := w_getcwd_fault w; w_print_fault := w_print_fault w;
     w_trace := w_trace w ++ [ev] |}.

(** Computations that read and change the world and may raise; the effects
    made before an exception stay. *)
Definition M (A : Type) : Type := World → result A * World.

Definition ret {A} (a : A) : M A := λ w, (Ok a, w).

Definition raise {A} (e : PyExn) : M A := λ w, (Raise e, w).

Definition bind {A B} (m : M A) (k : A → M B) : M B :=
  λ w, match m w with
       | (Ok a, w') => k a w'
       | (Raise e, w') => (Raise e, w')
       end.

(** [try: body except Exception as e: handler e] *)
Definition try_except {A} (body : M A) (handler : PyExn → M A) : M A :=
  λ w, match body w with
       | (Ok a, w') => (Ok a, w')
       | (Raise e, w') => handler e w'
       end.

Definition lift {A} (r : result A) : M A := λ w, (r, w).

(** A call into a library that may touch the file system. *)
Definition lift_fs {A}
    (f : gmap string FsNode → result A * gmap string FsNode) : M A :=
  λ w, let '(r, fs') := f (w_fs w) in (r, with_fs fs' w).

#[global] Instance M_ret : MRet M := @ret.
#[global] Instance M_bind : MBind M := λ A B k m, bind m k.

(** posixpath.join of two components *)
Definition ends_with_sep (a : string) : bool :=
  match String.get (String.length a - 1) a with
  | Some c => is_char c "/"
  | None => false
  end.

Definition path_join (a b : string) : string :=
  if String.prefix "/" b then b
  else if bool_decide (a = "") || ends_with_sep a then a +:+ b
  else a +:+ "/" +:+ b.

(** The pieces of a path between its slashes, as [p.split("/")] gives them. *)
Fixpoint components (p : string) : list string :=
  match p with
  | EmptyString => [EmptyString]
  | String c rest =>
      if is_char c "/" then EmptyString :: components rest
      else match components rest with
           | x :: xs => String c x :: xs
           | [] => [String c EmptyString]
           end
  end.

(** One component further along an absolute path: an empty component and
    [.] stay where they are, [..] goes up (the root is its own parent), a
    name goes down. *)
Definition norm_step (stack : list string) (c : string) : list string :=
  if decide (c = EmptyString ∨ c = ".") then stack
  else if decide (c = "..") then removelast stack
  else stack ++ [c].

Definition normalize (cs : list string) : list string := foldl norm_step [] cs.

(** The canonical path with these components below the root. *)
Definition render (cs : list string) : string := "/" +:+ String.concat "/" cs.

(** The canonical absolute path that a name denotes for the process, as
    [os.path.abspath] computes it: joined to the working directory, with
    empty components, [.] and [..] resolved. *)
Definition abspath (w : World) (p : string) : string :=
  render (normalize (components (path_join (w_cwd w) p))).

(** The directories a path leads through, as the system follows them: each
    name on the way has to be a directory that is there. *)
Definition enter (fs : gmap string FsNode) (stack : list string) (c : string)
  : result (list string) :=
  if decide (c = EmptyString ∨ c = ".") then Ok stack
  else if decide (c = "..") then Ok (removelast stack)
  else match fs !! render (stack ++ [c]) with
       | Some Dir => Ok (stack ++ [c])
       | Some (File _) =>
           Raise {| exn_class := NotADirectoryError; exn_msg := render (stack ++ [c]) |}
       | None =>
           Raise {| exn_class := FileNotFoundError; exn_msg := render (stack ++ [c]) |}
       end.

Fixpoint walk (fs : gmap string FsNode) (stack : list string) (cs : list string)
  : result (list string) :=
  match cs with
  | [] => Ok stack
  | c :: cs' =>
      match enter fs stack c with
      | Ok stack' => walk fs stack' cs'
      | Raise e => Raise e
      end
  end.

(** Does the last component name a directory by itself? *)
Definition names_directory (c : string) : bool :=
  bool_decide (c = EmptyString ∨ c = "." ∨ c = "..").

(** [p] itself or a path below the directory [p] *)
Definition within (p k : string) : Prop :=
  k = p ∨ String.prefix (p +:+ "/") k = true.

#[global] Instance within_dec p k : Decision (within p k).
Proof. unfold within. apply _. Defined.

Definition remove_tree (p : string) (fs : gmap string FsNode) : gmap string FsNode :=
  filter (λ kv, ¬ within p kv.1) fs.

(** A removal of [p] that fails part of the way: the paths of [gone] below
    [p] have been removed, [p] itself is still there. *)
Definition remove_some (p : string) (gone : list string) (fs : gmap string FsNode)
  : gmap string FsNode :=
  filter (λ kv, ¬ (within p kv.1 ∧ kv.1 ≠ p ∧ kv.1 ∈ gone)) fs.

(** [os.path.exists] and [os.path.isdir] never raise.  They are asked about
    a path joined to what [os.getcwd()] gave, which is canonical: its node
    is the one kept under that path. *)
Definition os_path_exists (p : string) : M bool :=
  λ w, (Ok (bool_decide (is_Some (w_fs w !! abspath w p))), w).

Definition os_path_isdir (p : string) : M bool :=
  λ w, (Ok (bool_decide (w_fs w !! abspath w p = Some Dir)), w).

(** [os.getcwd()]: fails, for one, when the working directory has been
    removed. *)
Definition os_getcwd : M string :=
  λ w, match w_getcwd_fault w with
       | Some e => (Raise e, w)
       | None => (Ok (w_cwd w), w)
       end.

(** [print(text)]: fails when the standard output does not take the text
    (the stream is closed, or cannot encode it); nothing is printed then. *)
Definition print (text : string) : M unit :=
  λ w, match w_print_fault w text with
       | Some e => (Raise e, w)
       | None => (Ok tt, log (EvPrint text) w)
       end.

(** [open(p, "w")]: the directories on the way have to be there; then the
    file is created or truncated.  Yields the handle. *)
Definition open_w (p : string) : M string :=
  λ w, let cs := components (path_join (w_cwd w) p) in
       match walk (w_fs w) [] (removelast cs) with
       | Raise e => (Raise e, w)
       | Ok _ =>
           let a := abspath w p in
           if names_directory (List.last cs EmptyString)
           then (Raise {| exn_class := IsADirectoryError; exn_msg := a |}, w)
           else
             match w_fs w !! a with
             | Some Dir =>
                 (Raise {| exn_class := IsADirectoryError; exn_msg := a |}, w)
             | _ =>
                 if decide (a ∈ w_readonly w)
                 then (Raise {| exn_class := PermissionError; exn_msg := a |}, w)
                 else (Ok a, log (EvOpen a) (with_fs (<[ a := File "" ]> (w_fs w)) w))
             end
       end.

(** [f.write(content)] followed by the close that ends the [with] block: the
    device takes the whole text, or as much of it as it has room for. *)
Definition file_write (handle content : string) : M unit :=
  λ w, match w_quota w with
       | Some n =>
           if decide (n < String.length content)
           then (Raise {| exn_class := OSError;
                          exn_msg := "No space left on device" |},
                 with_fs (<[ handle := File (String.substring 0 n content) ]> (w_fs w)) w)
           else (Ok tt, log (EvWrite handle content)
                          (with_fs (<[ handle := File content ]> (w_fs w)) w))
       | None =>
           (Ok tt, log (EvWrite handle content)
                     (with_fs (<[ handle := File content ]> (w_fs w)) w))
       end.

(** [shutil.rmtree(p)] *)
Definition shutil_rmtree (p : string) : M unit :=
  λ w, match w_rm_fault w with
       | Some (e, gone) =>
           (Raise e, with_fs (remove_some (abspath w p) gone (w_fs w)) w)
       | None =>
           (Ok tt, log (EvRmtree (abspath w p))
                     (with_fs (remove_tree (abspath w p) (w_fs w)) w))
       end.

(** ** pyvis network and the rendering helpers *)

Record NetNode := { nn_id : string; nn_pos : Q * Q; nn_style : string }.
Record NetEdge := { ne_from : string; ne_to : string; ne_style : string }.

Record Network := {
  net_directed : bool;
  net_height : string;
  net_width : string;
  net_bgcolor : string;
  net_layout : option string;
  net_options : option string;
  net_nodes : list NetNode;
  net_edges : list NetEdge
}.

Definition Network_new (directed : bool) (height width bgcolor : string)
    (layout : option string) : Network :=
  {| net_directed := directed; net_height := height; net_width := width;
     net_bgcolor := bgcolor; net_layout := layout; net_options := None;
     net_nodes := []; net_edges := [] |}.

Definition set_options (text : string) (net : Network) : Network :=
  {| net_directed := net_directed net; net_height := net_height net;
     net_width := net_width net; net_bgcolor := net_bgcolor net;
     net_layout := net_layout net; net_options := Some text;
     net_nodes := net_nodes net; net_edges := net_edges net |}.

Definition Network_add_nodes (ns : list NetNode) (net : Network) : Network :=
  {| net_directed := net_directed net; net_height := net_height net;
     net_width := net_width net; net_bgcolor := net_bgcolor net;
     net_layout := net_layout net; net_options := net_options net;
     net_nodes := net_nodes net ++ ns; net_edges := net_edges net |}.

Definition Network_add_edges (es : list NetEdge) (net : Network) : Network :=
  {| net_directed := net_directed net; net_height := net_height net;
     net_width := net_width net; net_bgcolor := net_bgcolor net;
     net_layout := net_layout net; net_options := net_options net;
     net_nodes := net_nodes net; net_edges := net_edges net ++ es |}.

(** [d[key]] on a dictionary with string keys *)
Definition getitem {A} (d : gmap string A) (key : string) : result A :=
  match d !! key with
  | Some a => Ok a
  | None => Raise {| exn_class := KeyError; exn_msg := key |}
  end.

(** The collaborators of [flow_visualizer.py] that are not among the sources
    and the libraries it calls, taken as parameters: the helpers of
    [visualization_utils] yield the nodes and edges they add to the network,
    pyvis and the template handler may read and change the file system. *)
Record Env := {
  COLORS : gmap string string;
  NODE_STYLES : gmap string string;
  layout_config : LayoutConfig;
  add_nodes_to_network :
    FlowGraph → gmap string (Q * Q) → gmap string string → result (list NetNode);
  add_edges :
    FlowGraph → gmap string (Q * Q) → gmap string string → result (list NetEdge);
  generate_html :
    Network → gmap string FsNode → result string * gmap string FsNode;
  module_dir : string;
  extract_body_content : string → result string;
  get_legend_items : gmap string string → list (string * string);
  generate_legend_items_html : list (string * string) → string;
  handler_generate_final_html :
    string → string → string → string →
    gmap string FsNode → result string * gmap string FsNode
}.

(** ** [flow_visualizer.py] *)

Module FlowPlot.

(** [os.path.join(current_dir, "assets", name)] *)
Definition asset_path (env : Env) (name : string) : string :=
  path_join (path_join (module_dir env) "assets") name.

Definition _generate_final_html (env : Env) (network_html : string) : M string :=
  let template_path := asset_path env "crewai_flow_visual_template.html" in
  let logo_path := asset_path env "crewai_logo.svg" in
  network_body ← lift (extract_body_content env network_html);
  let legend_items := get_legend_items env (COLORS env) in
  let legend_items_html := generate_legend_items_html env legend_items in
  lift_fs (handler_generate_final_html env template_path logo_path
             network_body legend_items_html).

Definition _cleanup_pyvis_lib : M unit :=
  cwd ← os_getcwd;
  let lib_folder := path_join cwd "lib" in
  try_except
    (ex ← os_path_exists lib_folder;
     isd ← (if ex then os_path_isdir lib_folder else ret false);
     if ex && isd then shutil_rmtree lib_folder else ret tt)
    (λ e, print ("Error cleaning up " +:+ lib_folder +:+ ": " +:+ exn_msg e)).

Definition plot (env : Env) (flow : FlowGraph) (filename : string) : M unit :=
  bg ← lift (getitem (COLORS env) "bg");
  let net := Network_new true "750px" "100%" bg None in
  let net := set_options PLOT_OPTIONS net in
  node_levels ← lift (calculate_node_levels flow);
  let node_positions := compute_positions (layout_config env) flow node_levels in
  ns ← lift (add_nodes_to_network env flow node_positions (NODE_STYLES env));
  let net := Network_add_nodes ns net in
  es ← lift (add_edges env flow node_positions (COLORS env));
  let net := Network_add_edges es net in
  network_html ← lift_fs (generate_html env net);
  final_html_content ← _generate_final_html env network_html;
  f ← open_w (filename +:+ ".html");
  file_write f final_html_content ;;
  print ("Plot saved as " +:+ filename +:+ ".html") ;;
  _cleanup_pyvis_lib.

(** The phases of [plot], for the statements below: the layout pipeline of
    lines 53 and 54, everything up to the final page (lines 29 to 59), and
    the part that touches the output location (lines 61 to 65). *)
Definition plot_layout (env : Env) (flow : FlowGraph) : M (gmap string (Q * Q)) :=
  node_levels ← lift (calculate_node_levels flow);
  mret (compute_positions (layout_config env) flow node_levels).

(** The network as [plot] has built it when it asks pyvis for the page. *)
Definition plot_network (bg : string) (ns : list NetNode) (es : list NetEdge)
  : Network :=
  Network_add_edges es
    (Network_add_nodes ns
       (set_options PLOT_OPTIONS (Network_new true "750px" "100%" bg None))).

Definition plot_render (env : Env) (flow : FlowGraph) : M string :=
  bg ← lift (getitem (COLORS env) "bg");
  node_positions ← plot_layout env flow;
  ns ← lift (add_nodes_to_network env flow node_positions (NODE_STYLES env));
  es ← lift (add_edges env flow node_positions (COLORS env));
  network_html ← lift_fs (generate_html env (plot_network bg ns es));
  _generate_final_html env network_html.

Definition plot_save (filename final_html_content : string) : M unit :=
  f ← open_w (filename +:+ ".html");
  file_write f final_html_content ;;
  print ("Plot saved as " +:+ filename +:+ ".html") ;;
  _cleanup_pyvis_lib.

(** Where the artifact goes and where pyvis leaves its working files. *)
Definition artifact_path (w : World) (filename : string) : string :=
  abspath w (filename +:+ ".html").

Definition lib_dir (w : World) : string :=
  abspath w (path_join (w_cwd w) "lib").

(** The documents written in full, in order. *)
Definition written (t : list Event) : list (string * string) :=
  omap (λ ev, match ev with EvWrite p c => Some (p, c) | _ => None end) t.



(** The libraries do not touch the path [p]. *)
Definition leaves_alone (env : Env) (p : string) : Prop :=
  (∀ net fs, (generate_html env net fs).2 !! p = fs !! p) ∧
  (∀ t l b lg fs, (handler_generate_final_html env t l b lg fs).2 !! p = fs !! p).

End FlowPlot.

Definition plot_flow (env : Env) (flow : FlowGraph) (filename : option string)
  : M unit :=
  FlowPlot.plot env flow (default "flow_plot" filename).

(** ** [base_tool.py]: conversion to LangChain *)

Module BaseTool.

(** A Python callable, known by its identity only. *)
Record Callable := { callable_id : nat }.

(** A pydantic model class, known by its name and field annotations. *)
Record Schema := { schema_name : string; schema_fields : list (string * string) }.

Record Tool := {
  name : string;
  description : string;
  args_schema : Schema;
  description_updated : bool;
  result_as_answer : bool;
  func : Callable
}.

(** [langchain_core.tools.Tool], built from keyword arguments. *)
Record LC_Tool := {
  lc_name : string;
  lc_description : string;
  lc_func : Callable;
  lc_args_schema : Schema
}.

(** The values [to_langchain] hands back to its caller. *)
Inductive PyValue :=
  | PyNone
  | PyLangChainTool (t : LC_Tool).

(** [from langchain_core.tools import Tool as LC_Tool] *)
Definition import_langchain_core (importable : bool) (msg : string) : result unit :=
  if importable then Ok tt
  else Raise {| exn_class := ImportError; exn_msg := msg |}.

(** A statement that evaluates an expression and drops its value. *)
Definition expression_statement {A} (value : A) : result unit := Ok tt.

Definition seq {A B} (r : result A) (k : A → result B) : result B :=
  match r with
  | Ok a => k a
  | Raise e => Raise e
  end.

(** [Tool.to_langchain], lines 247 to 259: the body ends after the
    constructor call, so the call falls off the end of the function. *)
Definition to_langchain (importable : bool) (self : Tool) : result PyValue :=
  seq (import_langchain_core importable "langchain_core is not installed")
      (λ _,
         seq (expression_statement
                {| lc_name := name self; lc_description := description self;
                   lc_func := func self; lc_args_schema := args_schema self |})
             (λ _, Ok PyNone)).

End BaseTool.

(** ** Concrete flows, collaborators and worlds used in the examples *)

Module Examples.

Definition step (s : string) : FlowGraphNode :=
  {| node_id := s; node_kind := KStep; node_outcomes := [] |}.

Definition listens (u v : string) : FlowGraphEdge :=
  {| edge_src := u; edge_dst := v; edge_kind := Normal; edge_label := None |}.

(** The end-to-end flow of section 8: stepB listens to start and stepA. *)
Definition diamond : FlowGraph :=
  {| flow_nodes := [step "start"; step "stepA"; step "stepB"];
     flow_edges := [listens "start" "stepA"; listens "start" "stepB";
                    listens "stepA" "stepB"] |}.

(** A triggers B and B triggers A. *)
Definition ping_pong : FlowGraph :=
  {| flow_nodes := [step "A"; step "B"];
     flow_edges := [listens "A" "B"; listens "B" "A"] |}.

(** Collaborators that succeed; pyvis leaves a [lib] directory behind in
    the working directory [/work]. *)
Definition pyvis_env : Env :=
  {| COLORS := {[ "bg" := "#FFFFFF" ]};
     NODE_STYLES := ∅;
     layout_config := {| x_spacing := 150; y_spacing := 150 |};
     add_nodes_to_network := λ _ _ _, Ok [];
     add_edges := λ _ _ _, Ok [];
     generate_html := λ _ fs,
       (Ok "<html><body>net</body></html>",
        <[ "/work/lib" := Dir ]>
          (<[ "/work/lib/bindings" := Dir ]>
             (<[ "/work/lib/bindings/utils.js" := File "js" ]> fs)));
     module_dir := "/pkg/crewai/flow";
     extract_body_content := λ s, Ok s;
     get_legend_items := λ _, [];
     generate_legend_items_html := λ _, "";
     handler_generate_final_html := λ _ _ body _ fs,
       (Ok ("<!doctype html>" +:+ body), fs) |}.

(** A world in which nothing fails, with the file system [fs] and the
    working directory [/work]. *)
Definition world_of (fs : gmap string FsNode) : World :=
  {| w_fs := fs; w_cwd := "/work"; w_readonly := ∅; w_quota := None;
     w_rm_fault := None; w_getcwd_fault := None; w_print_fault := λ _, None;
     w_trace := [] |}.

(** An empty working directory. *)
Definition empty_world : World := world_of {[ "/work" := Dir ]}.

(** The target [/work/out.html] cannot be opened for writing. *)
Definition readonly_world : World :=
  {| w_fs := {[ "/work" := Dir ]}; w_cwd := "/work";
     w_readonly := {[ "/work/out.html" ]};
     w_quota := None; w_rm_fault := None; w_getcwd_fault := None;
     w_print_fault := λ _, None; w_trace := [] |}.

(** The device takes five more characters. *)
Definition full_disk_world : World :=
  {| w_fs := {[ "/work" := Dir ]}; w_cwd := "/work"; w_readonly := ∅;
     w_quota := Some 5;
     w_rm_fault := None; w_getcwd_fault := None; w_print_fault := λ _, None;
     w_trace := [] |}.

(** A [lib] directory that is already there and cannot be removed. *)
Definition locked_lib_world : World :=
  {| w_fs := {[ "/work" := Dir; "/work/lib" := Dir ]}; w_cwd := "/work";
     w_readonly := ∅; w_quota := None;
     w_rm_fault := Some ({| exn_class := PermissionError; exn_msg := "denied" |}, []);
     w_getcwd_fault := None; w_print_fault := λ _, None;
     w_trace := [] |}.

(** A [lib] directory with a file in it, next to an unrelated file. *)
Definition stale_lib_world : World :=
  world_of {[ "/work" := Dir; "/work/lib" := Dir; "/work/lib/old.js" := File "x";
              "/work/notes.txt" := File "n" ]}.



(** The standard output has been closed. *)
Definition closed_stdout_world : World :=
  {| w_fs := {[ "/work" := Dir ]}; w_cwd := "/work"; w_readonly := ∅;
     w_quota := None; w_rm_fault := None; w_getcwd_fault := None;
     w_print_fault :=
       λ _, Some {| exn_class := ValueError;
                    exn_msg := "I/O operation on closed file." |};
     w_trace := [] |}.

Definition search_tool : BaseTool.Tool :=
  {| BaseTool.name := "search"; BaseTool.description := "Search the web";
     BaseTool.args_schema := {| BaseTool.schema_name := "SearchSchema";
                                BaseTool.schema_fields := [("query", "str")] |};
     BaseTool.description_updated := false; BaseTool.result_as_answer := false;
     BaseTool.func := {| BaseTool.callable_id := 1 |} |}.

End Examples.

(** Unfolding of the monad of [M] in proofs. *)
Ltac unfold_m :=
  unfold mbind, mret, M_bind, M_ret, bind, ret, lift, lift_fs, raise in *.

From stdpp Require Import pretty.

(** ** [cli/install_crew.py] *)

Module InstallCrew.

(** What becomes of the child process, after it has written [child_stdout]
    and [child_stderr]: it ends with a return code (a negative one when a
    signal killed it), it cannot be started at all (an [OSError], say), or
    the wait for it is interrupted from the keyboard. *)
Inductive Child :=
  | Exited (returncode : Z) (child_stdout child_stderr : string)
  | NotStarted (e : PyExn)
  | Interrupted (child_stdout child_stderr : string).

Definition child_out (child : Child) : string :=
  match child with
  | Exited _ out _ | Interrupted out _ => out
  | NotStarted _ => EmptyString
  end.

Definition child_err (child : Child) : string :=
  match child with
  | Exited _ _ err | Interrupted _ err => err
  | NotStarted _ => EmptyString
  end.

Record CompletedProcess := {
  cp_args : list string;
  cp_returncode : Z;
  cp_stdout : option string
}.

Record CalledProcessError := {
  cpe_returncode : Z;
  cpe_cmd : list string;
  cpe_output : option string
}.

(** How [subprocess.run] ends; [KeyboardInterrupt] is no [Exception]. *)
Inductive RunResult :=
  | Completed (p : CompletedProcess)
  | RaisedCalledProcessError (e : CalledProcessError)
  | RaisedException (e : PyExn)
  | RaisedKeyboardInterrupt.

(** The two streams of the terminal: the text written to each so far, and
    what a write to the standard error raises when the stream does not take
    it (it has been closed, say). *)
Record Console := {
  out_text : string;
  err_text : string;
  err_fault : option PyExn
}.

(** A child whose output is not captured inherits the streams of the
    process and writes to them itself. *)
Definition child_writes (capture_output : bool) (child : Child) (c : Console)
  : Console :=
  if capture_output then c
  else {| out_text := out_text c +:+ child_out child;
          err_text := err_text c +:+ child_err child;
          err_fault := err_fault c |}.

(** [subprocess.run(args, check=..., capture_output=...)]: the output is
    kept only when it is captured, and with [check] a return code other than
    zero becomes a [CalledProcessError]. *)
Definition subprocess_run (args : list string) (check capture_output : bool)
    (child : Child) (c : Console) : RunResult * Console :=
  match child with
  | NotStarted e => (RaisedException e, c)
  | Interrupted _ _ => (RaisedKeyboardInterrupt, child_writes capture_output child c)
  | Exited returncode out _ =>
      let stdout := if capture_output then Some out else None in
      (if check && negb (returncode =? 0)%Z
       then RaisedCalledProcessError
              {| cpe_returncode := returncode; cpe_cmd := args; cpe_output := stdout |}
       else Completed {| cp_args := args; cp_returncode := returncode;
                         cp_stdout := stdout |},
       child_writes capture_output child c)
  end.

(** The [repr] of a list of strings made of plain letters. *)
Definition repr_word (s : string) : string := "'" +:+ s +:+ "'".

Definition repr_words (l : list string) : string :=
  "[" +:+ String.concat ", " (map repr_word l) +:+ "]".

(** [str(e)] of a [CalledProcessError]; [signal_repr] gives the [repr] of
    the signal of a number, where the platform knows one. *)
Definition CalledProcessError_str (signal_repr : Z → option string)
    (e : CalledProcessError) : string :=
  let code := cpe_returncode e in
  if (code <? 0)%Z then
    match signal_repr (- code)%Z with
    | Some sig =>
        "Command '" +:+ repr_words (cpe_cmd e) +:+ "' died with " +:+ sig +:+ "."
    | None =>
        "Command '" +:+ repr_words (cpe_cmd e) +:+ "' died with unknown signal "
        +:+ pretty (- code)%Z +:+ "."
    end
  else
    "Command '" +:+ repr_words (cpe_cmd e) +:+ "' returned non-zero exit status "
    +:+ pretty code +:+ ".".

(** [click.echo(message, err=True)]: the message and a newline; a message
    that is [None] gives the newline alone. *)
Definition echo_err (message : option string) (c : Console) : result unit * Console :=
  match err_fault c with
  | Some e => (Raise e, c)
  | None =>
      (Ok tt,
       {| out_text := out_text c;
          err_text := err_text c +:+ default EmptyString message
                      +:+ String newline EmptyString;
          err_fault := err_fault c |})
  end.

(** How a call of [install_crew] ends. *)
Inductive Ending :=
  | ReturnsNone
  | KeyboardInterrupt
  | Raises (e : PyExn).

Definition ending (r : result unit) : Ending :=
  match r with
  | Ok _ => ReturnsNone
  | Raise e => Raises e
  end.

Definition install_crew (signal_repr : Z → option string) (child : Child)
    (c : Console) : Ending * Console :=
  match subprocess_run ["uv"; "sync"] true false child c with
  | (Completed _, c) => (ReturnsNone, c)
  | (RaisedCalledProcessError e, c) =>
      match echo_err (Some ("An error occurred while running the crew: "
                            +:+ CalledProcessError_str signal_repr e)) c with
      | (Ok _, c) =>
          let '(r, c) := echo_err (cpe_output e) c in (ending r, c)
      | (Raise x, c) => (Raises x, c)
      end
  | (RaisedException e, c) =>
      let '(r, c) :=
        echo_err (Some ("An unexpected error occurred: " +:+ exn_msg e)) c in
      (ending r, c)
  | (RaisedKeyboardInterrupt, c) => (KeyboardInterrupt, c)
  end.

(** A terminal on which nothing has been written. *)
Definition blank : Console :=
  {| out_text := EmptyString; err_text := EmptyString; err_fault := None |}.

End InstallCrew.

(** ** Outcomes of the calls below

    Besides the exceptions of [PyExn], attribute and type errors. *)

Inductive PyError :=
  | Builtin (e : PyExn)
  | AttributeError (msg : string)
  | TypeError (msg : string)
  | OtherException (class_name msg : string).

Inductive outcome (A : Type) : Type :=
  | Returns (a : A)
  | Throws (e : PyError).
Arguments Returns {A} a.
Arguments Throws {A} e.

(** ['T' object has no attribute 'a'] *)
Definition no_attribute (type_name attr : string) : PyError :=
  AttributeError ("'" +:+ type_name +:+ "' object has no attribute '" +:+ attr +:+ "'").

(** ** [memory/long_term/long_term_memory.py]: [LongTermMemory.save] *)

Module LongTermMemory.

(** The values kept in metadata: what the code looks at is only whether a
    key is there. *)
Inductive PyVal :=
  | VNone
  | VBool (b : bool)
  | VInt (z : Z)
  | VStr (s : string)
  | VObject (id : nat).

(** [LongTermMemoryItem], by the attributes [save] reads. *)
Record LongTermMemoryItem := {
  task : string;
  agent : string;
  expected_output : string;
  datetime : string;
  metadata : option (gmap string PyVal)     (* None, or a dictionary *)
}.

Definition with_metadata (m : gmap string PyVal) (item : LongTermMemoryItem)
  : LongTermMemoryItem :=
  {| task := task item; agent := agent item;
     expected_output := expected_output item; datetime := datetime item;
     metadata := Some m |}.

(** The [save] attribute of the storage, as the test of line 59 sees it. *)
Inductive SaveAttr :=
  | NoSave                                  (* no such attribute *)
  | NotCallable (type_name : string)        (* an attribute that cannot be called *)
  | Builtin_save                            (* callable, without [__code__] *)
  | PythonFunction (co_varnames : list string).

Record Storage := { storage_type_name : string; save_attr : SaveAttr }.

(** The call that reaches the storage or the base class. *)
Inductive Call :=
  | SaveKeywords (task_description : string) (score : PyVal)
                 (metadata : gmap string PyVal) (datetime : string)
  | SavePositional (task : string) (metadata : gmap string PyVal)
  | SuperSave (value : PyVal) (metadata : option (gmap string PyVal))
              (agent : option string).

Inductive Value :=
  | AnItem (item : LongTermMemoryItem)
  | Other (v : PyVal).

(** [item.metadata or {}]: a dictionary that is there and not empty is used
    itself, otherwise a new empty one. *)
Definition metadata_or_new (item : LongTermMemoryItem) : gmap string PyVal * bool :=
  match metadata item with
  | Some m => if decide (m = ∅) then (∅, false) else (m, true)
  | None => (∅, false)
  end.

(** [d.update({"agent": a, "expected_output": e})] *)
Definition update_agent_output (a e : string) (m : gmap string PyVal)
  : gmap string PyVal :=
  <[ "expected_output" := VStr e ]> (<[ "agent" := VStr a ]> m).

Definition takes_task_description (s : Storage) : bool :=
  match save_attr s with
  | PythonFunction co_varnames => bool_decide ("task_description" ∈ co_varnames)
  | _ => false
  end.

(** [save]: the value as it is after the call (the update of line 56
    changes the item's own dictionary when that is the one in use), and the
    call made. *)
Definition save (storage : Storage) (value : Value)
    (metadata_arg : option (gmap string PyVal)) (agent_arg : option string)
  : Value * outcome Call :=
  match value with
  | AnItem item =>
      let '(m, shared) := metadata_or_new item in
      let item_metadata := update_agent_output (agent item) (expected_output item) m in
      let item' := if shared then with_metadata item_metadata item else item in
      if takes_task_description storage then
        (AnItem item',
         Returns (SaveKeywords (task item)
                    (default (VInt 0) (item_metadata !! "quality"))
                    item_metadata (datetime item)))
      else
        match save_attr storage with
        | NoSave => (AnItem item', Throws (no_attribute (storage_type_name storage) "save"))
        | NotCallable type_name =>
            (AnItem item',
             Throws (TypeError ("'" +:+ type_name +:+ "' object is not callable")))
        | _ => (AnItem item', Returns (SavePositional (task item) item_metadata))
        end
  | Other v => (value, Returns (SuperSave v metadata_arg agent_arg))
  end.

(** The metadata dictionary that a call carries. *)
Definition call_metadata (c : Call) : option (gmap string PyVal) :=
  match c with
  | SaveKeywords _ _ m _ => Some m
  | SavePositional _ m => Some m
  | SuperSave _ m _ => m
  end.

(** A storage whose [save] is a Python function with a parameter
    [task_description], and an item with metadata of its own. *)
Definition plain_storage : Storage :=
  {| storage_type_name := "LTMSQLiteStorage";
     save_attr := PythonFunction ["self"; "task_description"; "metadata";
                                  "datetime"; "score"] |}.

Definition rated_item : LongTermMemoryItem :=
  {| task := "write a report"; agent := "writer"; expected_output := "a report";
     datetime := "1700000000";
     metadata := Some {[ "agent" := VStr "someone else"; "suggestions" := VStr "be brief" ]} |}.

End LongTermMemory.

(** ** [tools/base_tool.py]: descriptions, the decorator, conversions *)

Module Tools.

(** A type annotation, by what [get_origin], [get_args], [__name__] and
    [str] tell about it. *)
Inductive Annotation :=
  | ANone                                       (* the value None *)
  | AClass (name : string)                      (* no origin, has [__name__] *)
  | AObject (text : string)                     (* no origin, no [__name__]: [str] *)
  | AGeneric (origin : string) (args : list Annotation).

(** [typing.Any] *)
Definition Any : Annotation := AClass "Any".

(** [BaseTool._get_arg_annotations], lines 163 to 182 *)
Fixpoint _get_arg_annotations (annotation : Annotation) : string :=
  match annotation with
  | ANone => "None"
  | AClass name => name
  | AObject text => text
  | AGeneric origin [] => origin
  | AGeneric origin args =>
      origin +:+ "[" +:+ String.concat ", " (map _get_arg_annotations args) +:+ "]"
  end.

(** A field of a pydantic model and a model class. *)
Record FieldInfo := {
  field_description : option string;
  field_annotation : Annotation
}.

Record ModelClass := {
  model_name : string;
  model_fields : list (string * FieldInfo)
}.

(** A callable object, by what the module reads of it.  A function made
    by [def] has all of these attributes; a callable object of another type
    may lack a name or annotations, and [inspect.signature] finds no
    signature for some (it raises a [ValueError] then). *)
Record Function := {
  fn_id : nat;
  fn_type : string;                      (* the name of its type *)
  __name__ : option string;              (* None: no such attribute *)
  __doc__ : option string;               (* None: the value None *)
  __annotations__ : option (option (list (string * Annotation)));
                                         (* no such attribute, None, or a dictionary *)
  signature : outcome (list (string * option Annotation))
}.

(** An instance of [Tool]. *)
Record Tool := {
  name : string;
  description : string;
  args_schema : option ModelClass;
  description_updated : bool;
  result_as_answer : bool;
  func : Function
}.

Definition with_description (d : string) (self : Tool) : Tool :=
  {| name := name self; description := d; args_schema := args_schema self;
     description_updated := description_updated self;
     result_as_answer := result_as_answer self; func := func self |}.

Definition with_args_schema (m : ModelClass) (self : Tool) : Tool :=
  {| name := name self; description := description self; args_schema := Some m;
     description_updated := description_updated self;
     result_as_answer := result_as_answer self; func := func self |}.

(** A field that is declared by its annotation alone. *)
Definition annotated_field (a : Annotation) : FieldInfo :=
  {| field_description := None; field_annotation := a |}.

(** The class [ToolSchema] that lines 51 to 59 and 139 to 150 make for
    [Tool]: the annotations of [Tool._run] without that of its result, which
    leaves its two variadic parameters, both [Any]. *)
Definition ToolSchema : ModelClass :=
  {| model_name := "ToolSchema";
     model_fields := [("args", annotated_field Any); ("kwargs", annotated_field Any)] |}.

Section Builtins.
(** [repr] of a string, [str.split()] and [str.title()]. *)
Variable py_repr : string → string.
Variable py_split : string → list string.
Variable py_title : string → string.
(** pydantic: the model class that
    [type(name, (PydanticBaseModel,), {"__annotations__": a})] makes of a
    name and annotations, and the one [create_model(name, **fields)] makes
    of a name and fields; both may refuse. *)
Variable pydantic_model : string → list (string * Annotation) → outcome ModelClass.
Variable create_model : string → list (string * FieldInfo) → outcome ModelClass.

Definition repr_optional (o : option string) : string :=
  match o with
  | None => "None"
  | Some s => py_repr s
  end.

(** [repr] of a dictionary whose values are given by their [repr]. *)
Definition repr_dict (items : list (string * string)) : string :=
  "{" +:+ String.concat ", " (map (λ kv, py_repr kv.1 +:+ ": " +:+ kv.2) items) +:+ "}".

(** The dictionary of lines 153 to 159, as the f-string prints it. *)
Definition args_text (schema : ModelClass) : string :=
  repr_dict
    (map (λ nf, (nf.1,
                 repr_dict
                   [("description", repr_optional (field_description nf.2));
                    ("type", py_repr (_get_arg_annotations (field_annotation nf.2)))]))
         (model_fields schema)).

Definition description_text (tool_name : string) (schema : ModelClass)
    (old : string) : string :=
  "Tool Name: " +:+ tool_name +:+ String newline "Tool Arguments: "
  +:+ args_text schema +:+ String newline "Tool Description: " +:+ old.

(** [BaseTool._generate_description], lines 152 to 161 *)
Definition _generate_description (self : Tool) : outcome Tool :=
  match args_schema self with
  | None => Throws (no_attribute "NoneType" "model_fields")
  | Some schema =>
      Returns (with_description
                 (description_text (name self) schema (description self)) self)
  end.

(** [Tool(name=..., description=..., func=..., args_schema=...)]: the
    validator of lines 44 to 59 fills in a schema that was left out, and
    [model_post_init] generates the description. *)
Definition Tool_init (name description : string) (func : Function)
    (args_schema : option ModelClass) : Tool :=
  let schema :=
    default ToolSchema args_schema in
  {| name := name;
     description := description_text name schema description;
     args_schema := Some schema;
     description_updated := false; result_as_answer := false; func := func |}.

(** [BaseTool._set_args_schema], lines 137 to 150, for the class [Tool] *)
Definition _set_args_schema (self : Tool) : Tool :=
  match args_schema self with
  | None => with_args_schema ToolSchema self
  | Some _ => self
  end.

(** *** The decorator [tool], lines 281 to 317 *)

Inductive Arg :=
  | ACallable (f : Function)        (* a callable *)
  | AStr (s : string)
  | AOther.                         (* neither callable nor a string *)

(** What a call of [tool] hands back: a tool, or the decorator that makes one. *)
Inductive Made :=
  | MadeTool (t : Tool)
  | Decorator (tool_name : string).

Definition value_error {A} (msg : string) : outcome A :=
  Throws (Builtin {| exn_class := ValueError; exn_msg := msg |}).

Definition and_then {A B} (o : outcome A) (k : A → outcome B) : outcome B :=
  match o with
  | Returns a => k a
  | Throws e => Throws e
  end.

(** The annotations handed to pydantic: all but that of the result. *)
Definition without_return (annotations : list (string * Annotation))
  : list (string * Annotation) :=
  filter (λ kv, kv.1 ≠ "return") annotations.

Definition _make_tool (tool_name : string) (f : Function) : outcome Tool :=
  match __doc__ f with
  | None => value_error "Function must have a docstring"
  | Some doc =>
      match __annotations__ f with
      | None => Throws (no_attribute (fn_type f) "__annotations__")
      | Some None => value_error "Function must have type annotations"
      | Some (Some annotations) =>
          let class_name := py_title (String.concat "" (py_split tool_name)) in
          and_then (pydantic_model class_name (without_return annotations))
            (λ args_schema,
               Returns (Tool_init tool_name doc f (Some args_schema)))
      end
  end.

Definition tool (args : list Arg) : outcome Made :=
  match args with
  | [ACallable f] =>
      match __name__ f with
      | None => Throws (no_attribute (fn_type f) "__name__")
      | Some tool_name =>
          and_then (_make_tool tool_name f) (λ t, Returns (MadeTool t))
      end
  | [AStr s] => Returns (Decorator s)
  | _ => value_error "Invalid arguments"
  end.

(** *** Objects handed to [from_langchain]

    An object of some type with the attributes it has; [None] has none of
    them. *)
Inductive FuncAttr :=
  | IsCallable (f : Function)
  | IsNotCallable.

Record PyObject := {
  type_name : string;
  attr_name : option string;
  attr_description : option string;
  attr_func : option FuncAttr;
  attr__run : option Function;
  attr_args_schema : option (option ModelClass)   (* absent, None, or a class *)
}.

Definition None_object : PyObject :=
  {| type_name := "NoneType"; attr_name := None; attr_description := None;
     attr_func := None; attr__run := None; attr_args_schema := None |}.

(** [obj.attr] *)
Definition getattr {A} (obj : PyObject) (attr : string) (value : option A)
  : outcome A :=
  match value with
  | Some a => Returns a
  | None => Throws (no_attribute (type_name obj) attr)
  end.

(** [getattr(tool, "args_schema", None)] *)
Definition args_schema_or_None (obj : PyObject) : option ModelClass :=
  default None (attr_args_schema obj).

(** [Tool.from_langchain], lines 230 to 245 *)
Definition Tool_from_langchain (tool : PyObject) : outcome Tool :=
  and_then
    (match args_schema_or_None tool with
     | Some schema => Returns schema
     | None =>
         and_then (getattr tool "name" (attr_name tool)) (λ n,
           Returns {| model_name := n +:+ "Input"; model_fields := [] |})
     end) (λ args_schema,
  and_then (getattr tool "name" (attr_name tool)) (λ n,
  and_then (getattr tool "description" (attr_description tool)) (λ d,
  and_then (getattr tool "_run" (attr__run tool)) (λ run,
    Returns (Tool_init n d run (Some args_schema)))))).

(** The keyword arguments [BaseTool.from_langchain] passes to [cls]. *)
Record ToolKwargs := {
  kw_name : string;
  kw_description : string;
  kw_func : Function;
  kw_args_schema : ModelClass
}.

(** A required field with an empty description and the parameter's
    annotation, [Any] for a parameter without one *)
Definition parameter_field (p : string * option Annotation) : string * FieldInfo :=
  (p.1, {| field_description := Some "";
           field_annotation := default Any p.2 |}).

(** [BaseTool.from_langchain], lines 93 to 135: what is printed, and the
    result of [cls(...)].  [stdout_fault] is what [print] raises when the
    standard output does not take the line. *)
Definition BaseTool_from_langchain {T} (cls : ToolKwargs → outcome T)
    (stdout_fault : option PyError) (tool : PyObject) : list string * outcome T :=
  match stdout_fault with
  | Some e => ([], Throws e)
  | None =>
    (["CREATING TOOL FROM LANGCHAIN"],
     match attr_func tool with
     | Some (IsCallable f) =>
         and_then
           (match args_schema_or_None tool with
            | Some schema => Returns schema
            | None =>
                and_then (signature f) (λ parameters,
                  let args_fields :=
                    map parameter_field (filter (λ p, p.1 ≠ "self") parameters) in
                  and_then (getattr tool "name" (attr_name tool)) (λ n,
                    match args_fields with
                    | [] => Returns {| model_name := n +:+ "Input"; model_fields := [] |}
                    | _ :: _ => create_model (n +:+ "Input") args_fields
                    end))
            end) (λ args_schema,
         cls {| kw_name := default "Unnamed Tool" (attr_name tool);
                kw_description := default "" (attr_description tool);
                kw_func := f;
                kw_args_schema := args_schema |})
     | _ => value_error "The provided tool must have a callable 'func' attribute."
     end)
  end.

End Builtins.

(** *** [to_structured_tool] and the module's [to_langchain] *)

Section Structured.
(** [CrewStructuredTool], from [crewai.tools.structured_tool], with its
    constructor. *)
Variable CrewStructuredTool : Type.
Variable CrewStructuredTool_init :
  string → string → option ModelClass → Tool → bool → outcome CrewStructuredTool.

(** [BaseTool.to_structured_tool], lines 82 to 91: the tool as
    [_set_args_schema] leaves it, and the structured tool built around its
    [_run]. *)
Definition to_structured_tool (self : Tool) : Tool * outcome CrewStructuredTool :=
  let self := _set_args_schema self in
  (self, CrewStructuredTool_init (name self) (description self) (args_schema self)
           self (result_as_answer self)).

(** The elements of the list: instances of [BaseTool] or structured tools. *)
Inductive ToolLike :=
  | IsBaseTool (t : Tool)
  | IsStructured (s : CrewStructuredTool).

(** The module-level [to_langchain], lines 275 to 278 *)
Fixpoint to_langchain (tools : list ToolLike) : outcome (list CrewStructuredTool) :=
  match tools with
  | [] => Returns []
  | t :: rest =>
      and_then (match t with
                | IsBaseTool b => (to_structured_tool b).2
                | IsStructured s => Returns s
                end) (λ s,
      and_then (to_langchain rest) (λ ss, Returns (s :: ss)))
  end.

End Structured.
Arguments IsBaseTool {CrewStructuredTool} t.
Arguments IsStructured {CrewStructuredTool} s.
Arguments to_structured_tool {CrewStructuredTool} CrewStructuredTool_init self.
Arguments to_langchain {CrewStructuredTool} CrewStructuredTool_init tools.

(** *** The values of [BaseTool.to_langchain] as objects

    What [to_langchain] of the section on conversion hands back, seen as
    the object that [from_langchain] is then given: [None] is the object
    without attributes, a LangChain tool has its name, description,
    function, [_run] method and schema.  How a callable, the bound [_run]
    and a schema of that section read as a function and a model class is
    left open. *)
Section AsObject.
Variable function_of : BaseTool.Callable → Function.
Variable run_of : BaseTool.LC_Tool → Function.
Variable model_of : BaseTool.Schema → ModelClass.

Definition as_object (v : BaseTool.PyValue) : PyObject :=
  match v with
  | BaseTool.PyNone => None_object
  | BaseTool.PyLangChainTool t =>
      {| type_name := "ConcreteLangChainTool";
         attr_name := Some (BaseTool.lc_name t);
         attr_description := Some (BaseTool.lc_description t);
         attr_func := Some (IsCallable (function_of (BaseTool.lc_func t)));
         attr__run := Some (run_of t);
         attr_args_schema := Some (Some (model_of (BaseTool.lc_args_schema t))) |}
  end.

End AsObject.

(** A function as one writes it under the decorator:
    [def search(query: str, limit: int) -> str], with a docstring. *)
Definition search_function : Function :=
  {| fn_id := 7; fn_type := "function"; __name__ := Some "search";
     __doc__ := Some "Search the web.";
     __annotations__ := Some (Some [("query", AClass "str"); ("limit", AClass "int");
                                    ("return", AClass "str")]);
     signature := Returns [("query", Some (AClass "str"));
                           ("limit", Some (AClass "int"))] |}.

(** A method of some class, not bound: [def run(self, text)], without
    annotations or docstring. *)
Definition method_function : Function :=
  {| fn_id := 8; fn_type := "function"; __name__ := Some "run"; __doc__ := None;
     __annotations__ := Some (Some []);
     signature := Returns [("self", None); ("text", None)] |}.

(** [functools.partial(search, limit=3)]: callable, with the docstring of
    its class, without a name or annotations. *)
Definition partial_function : Function :=
  {| fn_id := 9; fn_type := "functools.partial"; __name__ := None;
     __doc__ := Some "Create a new function with partial application";
     __annotations__ := None;
     signature := Returns [("query", Some (AClass "str"))] |}.

(** A model class with one field per annotation whose name does not start
    with an underscore, for annotations of the builtin types; annotations
    of other classes are refused. *)
Definition plain_model (class_name : string) (annotations : list (string * Annotation))
  : outcome ModelClass :=
  if forallb (λ kv, match kv.2 with
                    | AClass c => bool_decide (c ∈ ["str"; "int"; "float"; "bool"; "Any"])
                    | _ => true
                    end) annotations
  then Returns {| model_name := class_name;
                  model_fields :=
                    map (λ kv, (kv.1, annotated_field kv.2))
                        (filter (λ kv, String.prefix "_" kv.1 = false) annotations) |}
  else Throws (OtherException "PydanticSchemaGenerationError"
                 "Unable to generate pydantic-core schema").

End Tools.

(** * Properties *)

Module LevelAssignerFacts.
Import LevelAssigner.

Lemma incoming_from_spec es : ∀ k i u v,
  (i, u) ∈ incoming_from k es v ↔
  ∃ e, k ≤ i ∧ es !! (i - k) = Some e ∧ edge_src e = u ∧ edge_dst e = v.
Proof.
  induction es as [|e0 es IH]; intros k i u v; simpl.
  - split; [intros H; inversion H | intros (e & _ & H & _); discriminate].
  - assert (Hrest : (i, u) ∈ incoming_from (S k) es v ↔
      ∃ e, k < i ∧ (e0 :: es) !! (i - k) = Some e ∧ edge_src e = u ∧ edge_dst e = v).
    { rewrite IH. split.
      - intros (e & Hle & Hl & Hs & Hd). exists e. split; [lia|].
        replace (i - k) with (S (i - S k)) by lia. done.
      - intros (e & Hlt & Hl & Hs & Hd). exists e. split; [lia|].
        replace (i - k) with (S (i - S k)) in Hl by lia. done. }
    assert (Hhead : ∀ e, k ≤ i → (e0 :: es) !! (i - k) = Some e →
              (i = k ∧ e = e0) ∨ k < i).
    { intros e Hle Hl. destruct (decide (i = k)) as [->|]; [|right; lia].
      left. rewrite Nat.sub_diag in Hl. simpl in Hl. by inversion Hl. }
    destruct (decide (edge_dst e0 = v)) as [Hd0|Hd0].
    + rewrite elem_of_cons, Hrest. split.
      * intros [Heq | (e & Hlt & H)].
        -- inversion Heq; subst. exists e0. rewrite Nat.sub_diag. done.
        -- exists e. split; [lia | done].
      * intros (e & Hle & Hl & Hs & Hd).
        destruct (Hhead e Hle Hl) as [[-> ->] | Hlt].
        -- left. by rewrite Hs.
        -- right. exists e. done.
    + rewrite Hrest. split.
      * intros (e & Hlt & H). exists e. split; [lia | done].
      * intros (e & Hle & Hl & Hs & Hd).
        destruct (Hhead e Hle Hl) as [[-> ->] | Hlt]; [done|].
        exists e. done.
Qed.

Lemma elem_of_incoming es i u v :
  (i, u) ∈ incoming es v ↔
  ∃ e, es !! i = Some e ∧ edge_src e = u ∧ edge_dst e = v.
Proof.
  unfold incoming. rewrite incoming_from_spec. split.
  - intros (e & _ & Hl & H). rewrite Nat.sub_0_r in Hl. eauto.
  - intros (e & Hl & H). exists e. rewrite Nat.sub_0_r. split; [lia | done].
Qed.

Section Pass.
Variable es : list FlowGraphEdge.

Lemma acc_le_refl acc : acc_le acc acc.
Proof. intros m ->. eauto. Qed.

Lemma acc_le_trans a b c : acc_le a b → acc_le b c → acc_le a c.
Proof.
  intros Hab Hbc m Hm. destruct (Hab m Hm) as (m' & Hb & Hle).
  destruct (Hbc m' Hb) as (m'' & Hc & Hle'). exists m''. split; [done | lia].
Qed.

Lemma acc_le_max_seen acc l : acc_le acc (max_seen acc l).
Proof. intros m ->. simpl. eexists. split; [done | lia]. Qed.

Lemma extends_refl st : extends st st.
Proof. split; done. Qed.

Lemma extends_trans a b c : extends a b → extends b c → extends a c.
Proof. intros [? ?] [? ?]. split; etrans; done. Qed.

Lemma extends_mark i st : extends st (mark_cyclic i st).
Proof. split; simpl; [done | set_solver]. Qed.

Lemma extends_lookup st st' x l :
  extends st st' → la_levels st !! x = Some l → la_levels st' !! x = Some l.
Proof. intros [Hl _] Hx. by eapply lookup_weaken. Qed.

Lemma processed_mono st st' acc acc' p :
  extends st st' → acc_le acc acc' → processed st acc p → processed st' acc' p.
Proof.
  intros Hext Hacc [Hc | (l & m & Hl & Hm & Hle)].
  - left. destruct Hext as [_ Hcy]. set_solver.
  - right. destruct (Hacc m Hm) as (m' & Hm' & Hle').
    exists l, m'. split; [by eapply extends_lookup|]. split; [done | lia].
Qed.

(** Reclassifying the edge [i] into the node on top of the stack, whose
    source is on the stack, keeps the invariant. *)
Lemma la_inv_mark v stack st i e :
  la_inv es (v :: stack) st →
  es !! i = Some e → edge_dst e = v → edge_src e ∈ v :: stack →
  la_inv es (v :: stack) (mark_cyclic i st).
Proof.
  intros [Hnd Hun Hmono Htgt Hbel Hopp] Hi Hd Hs.
  assert (Hsplit : ∀ (x : string) l1 l2, v :: stack = l1 ++ x :: l2 →
            (l1 = [] ∧ x = v ∧ l2 = stack) ∨
            (∃ l1', l1 = v :: l1' ∧ stack = l1' ++ x :: l2)).
  { intros x [|y l1] l2 Heq; simpl in Heq; inversion Heq; subst; eauto. }
  split; simpl.
  - done.
  - done.
  - intros j e' lv Hj Hnc Hlv. apply (Hmono j e' lv Hj); [set_solver | done].
  - intros j e' Hj Hc. apply elem_of_union in Hc as [Hc | Hc].
    + apply elem_of_singleton in Hc as ->. rewrite Hi in Hj. inversion Hj; subst.
      right. left.
    + by apply (Htgt j e').
  - intros j e' l1 l2 Hj Hc Hne Heq. apply elem_of_union in Hc as [Hc | Hc].
    + apply elem_of_singleton in Hc as ->. rewrite Hi in Hj. inversion Hj; subst e'.
      destruct (Hsplit _ _ _ Heq) as [(-> & _ & ->) | (l1' & -> & Hst)].
      * apply elem_of_cons in Hs as [Hs | Hs]; [congruence | done].
      * exfalso. apply NoDup_cons in Hnd as [Hnin _]. apply Hnin.
        rewrite Hst, <- Hd. set_solver.
    + by apply (Hbel j e' l1 l2).
  - intros j k e1 e2 Hj Hk Hsd Hds Hne Hcj Hck.
    assert (Hold : ∀ a ea, es !! a = Some ea → a ∈ la_cyclic st →
              edge_src ea = v → edge_dst ea = edge_src e → edge_src e ≠ v → False).
    { intros a ea Ha Hca Hsa Hda Hnev.
      assert (Hin : edge_src e ∈ stack).
      { apply elem_of_cons in Hs as [Hs | Hs]; [congruence | done]. }
      apply list_elem_of_split in Hin as (l1 & l2 & Hst).
      assert (Hv : edge_src ea ∈ l2).
      { apply (Hbel a ea (v :: l1) l2 Ha Hca); [congruence|].
        rewrite Hda. simpl. by rewrite Hst. }
      apply NoDup_cons in Hnd as [Hnin _]. apply Hnin.
      rewrite Hst, <- Hsa. set_solver. }
    apply elem_of_union in Hcj as [Hcj | Hcj];
      apply elem_of_union in Hck as [Hck | Hck].
    + apply elem_of_singleton in Hcj as ->. apply elem_of_singleton in Hck as ->.
      rewrite Hj in Hk. inversion Hk; subst. congruence.
    + apply elem_of_singleton in Hcj as ->. rewrite Hi in Hj. inversion Hj; subst e1.
      apply (Hold k e2 Hk Hck); congruence.
    + apply elem_of_singleton in Hck as ->. rewrite Hi in Hk. inversion Hk; subst e2.
      apply (Hold j e1 Hj Hcj); congruence.
    + by apply (Hopp j k e1 e2).
Qed.

(** Pushing an unvisited node on the stack keeps the invariant. *)
Lemma la_inv_push v stack st :
  la_inv es stack st → v ∉ stack → la_levels st !! v = None →
  la_inv es (v :: stack) st.
Proof.
  intros [Hnd Hun Hmono Htgt Hbel Hopp] Hnin Hv. split.
  - by apply NoDup_cons.
  - intros x Hx. apply elem_of_cons in Hx as [-> | Hx]; [done | by apply Hun].
  - done.
  - intros i e Hi Hc. destruct (Htgt i e Hi Hc) as [? | ?]; [by left | right; set_solver].
  - intros i e [|y l1] l2 Hi Hc Hne Heq; simpl in Heq; inversion Heq; subst.
    + destruct (Htgt i e Hi Hc) as [[l Hl] | Hin]; [congruence | done].
    + by apply (Hbel i e l1 l2).
  - done.
Qed.

(** Fixing the level of the node on top of the stack, once all of its
    predecessors are processed, keeps the invariant for the rest of the stack. *)
Lemma la_inv_pop v stack st acc :
  la_inv es (v :: stack) st →
  (∀ p, p ∈ incoming es v → processed st acc p) →
  la_inv es stack (set_level v (level_of acc) st).
Proof.
  intros [Hnd Hun Hmono Htgt Hbel Hopp] Hproc.
  assert (Hv : la_levels st !! v = None) by (apply Hun; left).
  apply NoDup_cons in Hnd as [Hnin Hnd].
  split; simpl.
  - done.
  - intros x Hx. rewrite lookup_insert_ne; [apply Hun; by right | set_solver].
  - intros i e lv Hi Hnc Hlv. simpl in *.
    destruct (decide (edge_dst e = v)) as [Hd | Hd].
    + rewrite Hd, lookup_insert_eq in Hlv. inversion Hlv; subst lv.
      assert (Hp : (i, edge_src e) ∈ incoming es v) by (apply elem_of_incoming; eauto).
      destruct (Hproc _ Hp) as [Hc | (l & m & Hl & -> & Hle)]; [done|]. simpl in *.
      exists l. split; [|lia].
      rewrite lookup_insert_ne; [done | congruence].
    + rewrite lookup_insert_ne in Hlv by done.
      destruct (Hmono i e lv Hi Hnc Hlv) as (lu & Hlu & Hlt).
      exists lu. split; [|done].
      rewrite lookup_insert_ne; [done | congruence].
  - intros i e Hi Hc. simpl in *. destruct (decide (edge_dst e = v)) as [Hd | Hd].
    + left. rewrite Hd, lookup_insert_eq. eauto.
    + rewrite lookup_insert_ne by done.
      destruct (Htgt i e Hi Hc) as [? | Hin]; [by left | right].
      apply elem_of_cons in Hin as [? | ?]; [congruence | done].
  - intros i e l1 l2 Hi Hc Hne Heq.
    apply (Hbel i e (v :: l1) l2 Hi Hc Hne). simpl. by rewrite Heq.
  - done.
Qed.

Lemma extends_set_level v l st :
  la_levels st !! v = None → extends st (set_level v l st).
Proof. intros Hv. split; simpl; [by apply insert_subseteq | done]. Qed.

Lemma resolve_preds_spec rec v stack :
  resolves es (v :: stack) rec →
  ∀ preds acc st acc' st',
    (∀ p, p ∈ preds → p ∈ incoming es v) →
    la_inv es (v :: stack) st →
    resolve_preds rec (v :: stack) preds acc st = Some (acc', st') →
    extends st st' ∧ acc_le acc acc' ∧ la_inv es (v :: stack) st' ∧
    (∀ p, p ∈ preds → processed st' acc' p).
Proof.
  intros Hrec. induction preds as [|[i u] rest IH]; intros acc st acc' st' Hin Hinv Hrun.
  - simpl in Hrun. inversion Hrun; subst.
    split; [apply extends_refl|]. split; [apply acc_le_refl|]. split; [done|].
    intros p Hp. inversion Hp.
  - assert (Hrest : ∀ p, p ∈ rest → p ∈ incoming es v) by (intros; apply Hin; by right).
    assert (Hiu : (i, u) ∈ incoming es v) by (apply Hin; left).
    apply elem_of_incoming in Hiu as (e & Hi & Hs & Hd).
    simpl in Hrun. destruct (decide (u ∈ v :: stack)) as [Hon | Hoff].
    + apply IH in Hrun as (Hext & Hacc & Hinv' & Hproc); [|done|].
      2:{ apply (la_inv_mark v stack st i e); [done | done | done | by rewrite Hs]. }
      split; [eapply extends_trans; [apply extends_mark | done]|].
      split; [done|]. split; [done|].
      intros p Hp. apply elem_of_cons in Hp as [-> | Hp]; [|by apply Hproc].
      left. simpl. destruct Hext as [_ Hc]. simpl in Hc. set_solver.
    + destruct (la_levels st !! u) as [l|] eqn:Hu.
      * apply IH in Hrun as (Hext & Hacc & Hinv' & Hproc); [|done|done].
        split; [done|].
        split; [eapply acc_le_trans; [apply acc_le_max_seen | done]|].
        split; [done|].
        intros p Hp. apply elem_of_cons in Hp as [-> | Hp]; [|by apply Hproc].
        apply (processed_mono st st' (max_seen acc l) acc'); [done | done|].
        right. simpl. destruct acc as [m|]; simpl; eexists _, _;
          (split; [done|]); (split; [done | lia]).
      * destruct (rec u st) as [[l st1]|] eqn:Hcall; [|done].
        destruct (Hrec u st l st1 Hoff Hu Hinv Hcall) as (Hext1 & Hl & Hinv1).
        apply IH in Hrun as (Hext & Hacc & Hinv' & Hproc); [|done|done].
        split; [by eapply extends_trans|].
        split; [eapply acc_le_trans; [apply acc_le_max_seen | done]|].
        split; [done|].
        intros p Hp. apply elem_of_cons in Hp as [-> | Hp]; [|by apply Hproc].
        apply (processed_mono st1 st' (max_seen acc l) acc'); [done | done|].
        right. simpl. destruct acc as [m|]; simpl; eexists _, _;
          (split; [done|]); (split; [done | lia]).
Qed.

Lemma resolve_spec fuel : ∀ stack, resolves es stack (resolve fuel es stack).
Proof.
  induction fuel as [|fuel IH]; intros stack u st l st' Hoff Hu Hinv Hrun; [done|].
  simpl in Hrun.
  destruct (resolve_preds _ _ _ _ _) as [[acc st1]|] eqn:Hpreds; [|done].
  inversion Hrun; subst l st'; clear Hrun.
  apply (resolve_preds_spec _ u stack (IH (u :: stack))) in Hpreds
    as (Hext & _ & Hinv1 & Hproc); [|done|by apply la_inv_push].
  assert (Hu1 : la_levels st1 !! u = None) by (apply (inv_stack_unset _ _ _ Hinv1); left).
  split; [eapply extends_trans; [done | by apply extends_set_level]|].
  split; [simpl; apply lookup_insert_eq|].
  by apply la_inv_pop.
Qed.

Lemma la_inv_empty : la_inv es [] la_empty.
Proof.
  split.
  - constructor.
  - intros x Hx. inversion Hx.
  - intros i e lv _ _ Hl. simpl in Hl. by rewrite lookup_empty in Hl.
  - intros i e _ Hc. simpl in Hc. set_solver.
  - intros i e l1 l2 _ Hc. simpl in Hc. set_solver.
  - intros i j e1 e2 _ _ _ _ _ Hc. simpl in Hc. set_solver.
Qed.

Lemma assign_all_spec fuel : ∀ ns st st',
  la_inv es [] st → assign_all fuel es ns st = Some st' →
  extends st st' ∧ la_inv es [] st' ∧ ∀ v, v ∈ ns → is_Some (la_levels st' !! v).
Proof.
  induction ns as [|v rest IH]; intros st st' Hinv Hrun; simpl in Hrun.
  - inversion Hrun; subst. split; [apply extends_refl|]. split; [done|].
    intros v Hv. inversion Hv.
  - destruct (la_levels st !! v) as [l|] eqn:Hv.
    + apply IH in Hrun as (Hext & Hinv' & Hall); [|done].
      split; [done|]. split; [done|].
      intros x Hx. apply elem_of_cons in Hx as [-> | Hx]; [|by apply Hall].
      exists l. by eapply extends_lookup.
    + destruct (resolve fuel es [] v st) as [[l st1]|] eqn:Hres; [|done].
      destruct (resolve_spec fuel [] v st l st1) as (Hext1 & Hl & Hinv1);
        [apply not_elem_of_nil | done | done | done |].
      apply IH in Hrun as (Hext & Hinv' & Hall); [|done].
      split; [by eapply extends_trans|]. split; [done|].
      intros x Hx. apply elem_of_cons in Hx as [-> | Hx]; [|by apply Hall].
      exists l. by eapply extends_lookup.
Qed.

(** *** Termination: the depth bound is never hit *)

Lemma resolve_preds_dom rec ip :
  (∀ u st l st', rec u st = Some (l, st') → dom (la_levels st) ⊆ dom (la_levels st')) →
  ∀ preds acc st acc' st',
    resolve_preds rec ip preds acc st = Some (acc', st') →
    dom (la_levels st) ⊆ dom (la_levels st').
Proof.
  intros Hrec. induction preds as [|[i u] rest IH]; intros acc st acc' st' Hrun;
    simpl in Hrun.
  - by inversion Hrun.
  - destruct (decide (u ∈ ip)).
    + by apply IH in Hrun.
    + destruct (la_levels st !! u); [by apply IH in Hrun|].
      destruct (rec u st) as [[l st1]|] eqn:Hcall; [|done].
      apply Hrec in Hcall. apply IH in Hrun. set_solver.
Qed.

Lemma resolve_dom fuel : ∀ stack v st l st',
  resolve fuel es stack v st = Some (l, st') →
  dom (la_levels st) ⊆ dom (la_levels st').
Proof.
  induction fuel as [|fuel IH]; intros stack v st l st' Hrun; [done|].
  simpl in Hrun.
  destruct (resolve_preds _ _ _ _ _) as [[acc st1]|] eqn:Hpreds; [|done].
  inversion Hrun; subst. apply resolve_preds_dom in Hpreds; [|apply IH].
  simpl. rewrite dom_insert_L. set_solver.
Qed.

Section Termination.
Variable U : gset string.
Hypothesis sources_in_U : ∀ e, e ∈ es → edge_src e ∈ U.

Lemma pending_mono stack st st' :
  dom (la_levels st) ⊆ dom (la_levels st') → pending U stack st' ≤ pending U stack st.
Proof. intros Hsub. unfold pending. apply subseteq_size. set_solver. Qed.

Lemma pending_push v stack st :
  v ∈ U → v ∉ stack → la_levels st !! v = None →
  pending U (v :: stack) st < pending U stack st.
Proof.
  intros HvU Hoff Hv. unfold pending. apply subset_size.
  apply not_elem_of_dom in Hv. split; [set_solver|].
  intros Hsub. assert (Hin : v ∈ U ∖ (list_to_set stack ∪ dom (la_levels st))).
  { apply elem_of_difference. split; [done|]. set_solver. }
  apply Hsub in Hin. set_solver.
Qed.

Lemma resolve_preds_total rec ip st0 :
  (∀ u st l st', rec u st = Some (l, st') → dom (la_levels st) ⊆ dom (la_levels st')) →
  (∀ u st, u ∈ U → u ∉ ip → la_levels st !! u = None →
     dom (la_levels st0) ⊆ dom (la_levels st) → is_Some (rec u st)) →
  ∀ preds acc st,
    (∀ p, p ∈ preds → p.2 ∈ U) →
    dom (la_levels st0) ⊆ dom (la_levels st) →
    is_Some (resolve_preds rec ip preds acc st).
Proof.
  intros Hdom Hrec. induction preds as [|[i u] rest IH]; intros acc st HU Hsub; simpl.
  - eauto.
  - assert (Hrest : ∀ p, p ∈ rest → p.2 ∈ U) by (intros; apply HU; by right).
    destruct (decide (u ∈ ip)); [by apply IH|].
    destruct (la_levels st !! u) eqn:Hu; [by apply IH|].
    destruct (Hrec u st) as [[l st1] Hcall]; [apply (HU (i, u)); left | done | done | done |].
    rewrite Hcall. apply IH; [done|]. apply Hdom in Hcall. set_solver.
Qed.

Lemma resolve_total fuel : ∀ stack v st,
  v ∈ U → v ∉ stack → la_levels st !! v = None →
  pending U stack st ≤ fuel →
  is_Some (resolve fuel es stack v st).
Proof.
  induction fuel as [|fuel IH]; intros stack v st HvU Hoff Hv Hfuel.
  - pose proof (pending_push v stack st HvU Hoff Hv). lia.
  - simpl.
    destruct (resolve_preds_total (resolve fuel es (v :: stack)) (v :: stack) st
                (resolve_dom fuel (v :: stack))) with (preds := incoming es v)
                (acc := @None nat) (st := st) as [[acc st1] Hpreds].
    + intros u st1 HuU Huoff Hu Hsub. apply IH; [done | done | done |].
      pose proof (pending_mono (v :: stack) st st1 Hsub).
      pose proof (pending_push v stack st HvU Hoff Hv). lia.
    + intros [i u] Hp. apply elem_of_incoming in Hp as (e & Hi & Hs & _).
      simpl. rewrite <- Hs. apply sources_in_U. by eapply list_elem_of_lookup_2.
    + done.
    + rewrite Hpreds. eauto.
Qed.

Lemma assign_all_total fuel : ∀ ns st,
  (∀ v, v ∈ ns → v ∈ U) → size U ≤ fuel →
  is_Some (assign_all fuel es ns st).
Proof.
  induction ns as [|v rest IH]; intros st HU Hfuel; simpl; [eauto|].
  assert (Hrest : ∀ x, x ∈ rest → x ∈ U) by (intros; apply HU; by right).
  destruct (la_levels st !! v) eqn:Hv; [by apply IH|].
  destruct (resolve_total fuel [] v st) as [[l st1] Hres];
    [apply HU; left | apply not_elem_of_nil | done | |].
  - etrans; [|exact Hfuel]. unfold pending. apply subseteq_size. set_solver.
  - rewrite Hres. by apply IH.
Qed.

End Termination.

(** *** Without a cycle no edge is reclassified *)

Lemma stack_chain_top v : ∀ stack u,
  stack_chain es (v :: stack) → u ∈ stack → reaches es v u.
Proof.
  intros stack. revert v. induction stack as [|y rest IH]; intros v u Hch Hu.
  - inversion Hu.
  - assert (Hvy : reaches es v y) by (apply (Hch [] v y rest); done).
    apply elem_of_cons in Hu as [-> | Hu]; [done|].
    apply (reaches_trans es v y u); [done|]. apply IH; [|done].
    intros l1 a b l2 Heq. apply (Hch (v :: l1) a b l2). simpl. by rewrite Heq.
Qed.

Lemma stack_chain_push u v stack :
  stack_chain es (v :: stack) → reaches es u v → stack_chain es (u :: v :: stack).
Proof.
  intros Hch Huv [|a l1] x y l2 Heq; simpl in Heq; inversion Heq; subst; [done|].
  by apply (Hch l1 x y l2).
Qed.

Lemma resolve_preds_acyclic rec v stack :
  acyclic es → stack_chain es (v :: stack) →
  (∀ u st l st', reaches es u v → rec u st = Some (l, st') →
     la_cyclic st' = la_cyclic st) →
  ∀ preds acc st acc' st',
    (∀ p, p ∈ preds → p ∈ incoming es v) →
    resolve_preds rec (v :: stack) preds acc st = Some (acc', st') →
    la_cyclic st' = la_cyclic st.
Proof.
  intros Hac Hch Hrec. induction preds as [|[i u] rest IH];
    intros acc st acc' st' Hin Hrun; simpl in Hrun.
  - by inversion Hrun.
  - assert (Hrest : ∀ p, p ∈ rest → p ∈ incoming es v) by (intros; apply Hin; by right).
    assert (Hiu : (i, u) ∈ incoming es v) by (apply Hin; left).
    apply elem_of_incoming in Hiu as (e & Hi & Hs & Hd).
    assert (Huv : reaches es u v) by (rewrite <- Hs, <- Hd; by eapply reaches_edge).
    destruct (decide (u ∈ v :: stack)) as [Hon | Hoff].
    + exfalso. apply (Hac v). apply elem_of_cons in Hon as [-> | Hon]; [done|].
      apply (reaches_trans es v u v); [by apply (stack_chain_top v stack) | done].
    + destruct (la_levels st !! u); [by apply (IH _ _ _ _ Hrest Hrun)|].
      destruct (rec u st) as [[l st1]|] eqn:Hcall; [|done].
      rewrite (IH _ _ _ _ Hrest Hrun). by apply (Hrec u st l st1).
Qed.

Lemma resolve_acyclic fuel :
  acyclic es → ∀ stack v st l st',
    stack_chain es (v :: stack) → resolve fuel es stack v st = Some (l, st') →
    la_cyclic st' = la_cyclic st.
Proof.
  intros Hac. induction fuel as [|fuel IH]; intros stack v st l st' Hch Hrun; [done|].
  simpl in Hrun.
  destruct (resolve_preds _ _ _ _ _) as [[acc st1]|] eqn:Hpreds; [|done].
  inversion Hrun; subst. simpl.
  apply (resolve_preds_acyclic _ v stack Hac Hch) in Hpreds; [done | | done].
  intros u st0 l0 st0' Huv. apply IH. by apply stack_chain_push.
Qed.

Lemma assign_all_acyclic fuel :
  acyclic es → ∀ ns st st',
    assign_all fuel es ns st = Some st' → la_cyclic st' = la_cyclic st.
Proof.
  intros Hac. induction ns as [|v rest IH]; intros st st' Hrun; simpl in Hrun.
  - by inversion Hrun.
  - destruct (la_levels st !! v); [by apply IH|].
    destruct (resolve fuel es [] v st) as [[l st1]|] eqn:Hres; [|done].
    rewrite (IH _ _ Hrun). apply (resolve_acyclic fuel Hac [] v st l st1); [|done].
    intros [|a [|b l1]] x y l2 Heq; simpl in Heq; inversion Heq.
Qed.

End Pass.

(** *** The pass on a whole flow graph *)

Lemma size_list_to_set_le (l : list string) :
  size (list_to_set (C := gset string) l) ≤ length l.
Proof.
  induction l as [|x l IH].
  - rewrite list_to_set_nil, size_empty. done.
  - rewrite list_to_set_cons, size_union_alt, size_singleton. simpl.
    pose proof (subseteq_size (list_to_set l ∖ {[x]}) (list_to_set l : gset string)
                  ltac:(set_solver)).
    lia.
Qed.

Lemma universe_size g : size (universe g) ≤ length (flow_nodes g) + length (flow_edges g).
Proof.
  unfold universe. etrans; [apply size_list_to_set_le|].
  unfold node_ids. by rewrite length_app, !length_map.
Qed.

Lemma assign_with_total g fuel :
  depth_bound g ≤ fuel → is_Some (assign_with fuel g).
Proof.
  intros Hfuel. unfold assign_with.
  apply (assign_all_total (flow_edges g) (universe g)).
  - intros e He. unfold universe. apply elem_of_list_to_set, elem_of_app. right.
    apply list_elem_of_fmap. eauto.
  - intros v Hv. unfold universe. apply elem_of_list_to_set, elem_of_app. by left.
  - pose proof (universe_size g). unfold depth_bound in Hfuel. lia.
Qed.

Lemma level_assigner_total g : is_Some (level_assigner g).
Proof. by apply assign_with_total. Qed.

Lemma level_assigner_inv g st :
  level_assigner g = Some st →
  la_inv (flow_edges g) [] st ∧ ∀ v, v ∈ node_ids g → is_Some (la_levels st !! v).
Proof.
  intros Hrun. apply assign_all_spec in Hrun as (_ & Hinv & Hall); [done|].
  apply la_inv_empty.
Qed.

Lemma classified_edges_lookup g st i :
  classified_edges g st !! i = reclassify st i <$> flow_edges g !! i.
Proof. unfold classified_edges. apply list_lookup_imap. Qed.

Lemma reclassify_kind st i e :
  edge_kind (reclassify st i e) ≠ Cyclic → (i ∉ la_cyclic st) ∧ (reclassify st i e = e).
Proof. unfold reclassify. destruct (decide (i ∈ la_cyclic st)); simpl; done. Qed.

Lemma reclassify_endpoints st i e :
  edge_src (reclassify st i e) = edge_src e ∧ edge_dst (reclassify st i e) = edge_dst e.
Proof. unfold reclassify. by destruct (decide (i ∈ la_cyclic st)). Qed.

(** *** More fuel than needed changes nothing *)

Lemma resolve_preds_more rec rec' ip :
  (∀ u st r, rec u st = Some r → rec' u st = Some r) →
  ∀ preds acc st r,
    resolve_preds rec ip preds acc st = Some r →
    resolve_preds rec' ip preds acc st = Some r.
Proof.
  intros Hrec. induction preds as [|[i u] rest IH]; intros acc st r Hrun; simpl in *.
  - done.
  - destruct (decide (u ∈ ip)); [by apply IH|].
    destruct (la_levels st !! u); [by apply IH|].
    destruct (rec u st) as [[l st1]|] eqn:Hcall; [|done].
    rewrite (Hrec _ _ _ Hcall). by apply IH.
Qed.

Lemma resolve_more es fuel : ∀ fuel' stack v st r,
  fuel ≤ fuel' → resolve fuel es stack v st = Some r →
  resolve fuel' es stack v st = Some r.
Proof.
  induction fuel as [|fuel IH]; intros fuel' stack v st r Hle Hrun; [done|].
  destruct fuel' as [|fuel']; [lia|]. simpl in *.
  destruct (resolve_preds (resolve fuel es (v :: stack)) _ _ _ _)
    as [[acc st1]|] eqn:Hpreds; [|done].
  assert (Hrec : ∀ u st0 r0, resolve fuel es (v :: stack) u st0 = Some r0 →
                   resolve fuel' es (v :: stack) u st0 = Some r0).
  { intros u st0 r0. apply IH. lia. }
  by rewrite (resolve_preds_more _ _ _ Hrec _ _ _ _ Hpreds).
Qed.

Lemma assign_all_more es fuel fuel' : fuel ≤ fuel' → ∀ ns st r,
  assign_all fuel es ns st = Some r → assign_all fuel' es ns st = Some r.
Proof.
  intros Hle. induction ns as [|v rest IH]; intros st r Hrun; simpl in *; [done|].
  destruct (la_levels st !! v); [by apply IH|].
  destruct (resolve fuel es [] v st) as [[l st1]|] eqn:Hres; [|done].
  rewrite (resolve_more es fuel fuel' [] v st _ Hle Hres). by apply IH.
Qed.

Lemma assign_with_enough_fuel g fuel :
  depth_bound g ≤ fuel → assign_with fuel g = level_assigner g.
Proof.
  intros Hle. destruct (level_assigner_total g) as [st Hst]. rewrite Hst.
  by apply (assign_all_more _ (depth_bound g)).
Qed.

Lemma level_assigner_acyclic g st :
  acyclic (flow_edges g) → level_assigner g = Some st → la_cyclic st = ∅.
Proof. intros Hac Hrun. by apply assign_all_acyclic in Hrun. Qed.

Lemma classified_edges_unmarked g st :
  la_cyclic st = ∅ → classified_edges g st = flow_edges g.
Proof.
  intros Hc. unfold classified_edges.
  rewrite (imap_ext _ (const id)).
  - by rewrite imap_const, list_fmap_id.
  - intros i e _. unfold reclassify. rewrite Hc.
    destruct (decide (i ∈ (∅ : gset nat))) as [Hin|]; [set_solver | done].
Qed.

End LevelAssignerFacts.

Module FlowPlotFacts.
Import FlowPlot.

Lemma with_fs_same w : with_fs (w_fs w) w = w.
Proof. by destruct w. Qed.

(** *** Paths *)

(** Where the directories of a path lead, when they are all there, is where
    [normalize] says. *)
Lemma walk_foldl fs cs : ∀ stack stack',
  walk fs stack cs = Ok stack' → stack' = foldl norm_step stack cs.
Proof.
  induction cs as [|c cs IH]; intros stack stack' H; simpl in H.
  - by inversion H.
  - destruct (enter fs stack c) as [st|e] eqn:He; [|done].
    simpl. rewrite (IH _ _ H). f_equal.
    unfold enter in He. unfold norm_step.
    destruct (decide (c = "" ∨ c = ".")); [by inversion He|].
    destruct (decide (c = "..")); [by inversion He|].
    destruct (fs !! render (stack ++ [c])) as [[?|]|]; by inversion He.
Qed.

Lemma components_not_nil p : components p ≠ [].
Proof.
  destruct p as [|c p]; simpl; [done|].
  destruct (is_char c "/"); [done|]. by destruct (components p).
Qed.

(** The file that [open] reaches through the directories of a path is the
    one kept under the canonical path. *)
Lemma open_w_target w p stack :
  walk (w_fs w) [] (removelast (components (path_join (w_cwd w) p))) = Ok stack →
  abspath w p =
    render (norm_step stack (List.last (components (path_join (w_cwd w) p)) "")).
Proof.
  intros H. apply walk_foldl in H. unfold abspath, normalize.
  pose proof (app_removelast_last "" (components_not_nil (path_join (w_cwd w) p)))
    as Hcs.
  set (cs := components (path_join (w_cwd w) p)) in *.
  replace (foldl norm_step [] cs)
    with (foldl norm_step [] (removelast cs ++ [List.last cs ""]))
    by (by rewrite <- Hcs).
  rewrite foldl_app. simpl. by rewrite <- H.
Qed.

Lemma lib_dir_same_cwd w w' : w_cwd w' = w_cwd w → lib_dir w' = lib_dir w.
Proof. intros H. unfold lib_dir, abspath. by rewrite H. Qed.

Lemma artifact_path_same_cwd w w' filename :
  w_cwd w' = w_cwd w → artifact_path w' filename = artifact_path w filename.
Proof. intros H. unfold artifact_path, abspath. by rewrite H. Qed.

Lemma within_self p : within p p.
Proof. by left. Qed.

Lemma remove_tree_lookup p fs k :
  remove_tree p fs !! k = if decide (within p k) then None else fs !! k.
Proof.
  unfold remove_tree. destruct (decide (within p k)) as [Hw | Hw].
  - apply map_lookup_filter_None. right. intros x _. simpl. tauto.
  - destruct (fs !! k) as [x|] eqn:Hk.
    + apply map_lookup_filter_Some. split; [done|]. simpl. done.
    + apply map_lookup_filter_None. by left.
Qed.

Lemma remove_some_lookup_outside p gone fs k :
  ¬ within p k → remove_some p gone fs !! k = fs !! k.
Proof.
  intros Hk. unfold remove_some. destruct (fs !! k) as [x|] eqn:Hx.
  - apply map_lookup_filter_Some. split; [done|]. simpl. tauto.
  - apply map_lookup_filter_None. by left.
Qed.

Lemma remove_some_lookup_self p gone fs : remove_some p gone fs !! p = fs !! p.
Proof.
  unfold remove_some. destruct (fs !! p) as [x|] eqn:Hx.
  - apply map_lookup_filter_Some. split; [done|]. simpl. tauto.
  - apply map_lookup_filter_None. by left.
Qed.

(** *** The cleanup step *)

Lemma cleanup_getcwd_fault w e :
  w_getcwd_fault w = Some e → _cleanup_pyvis_lib w = (Raise e, w).
Proof.
  intros H. unfold _cleanup_pyvis_lib, os_getcwd. unfold_m. by rewrite H.
Qed.

Lemma cleanup_not_dir w :
  w_getcwd_fault w = None → w_fs w !! lib_dir w ≠ Some Dir →
  _cleanup_pyvis_lib w = (Ok tt, w).
Proof.
  intros Hcwd Hnd. unfold _cleanup_pyvis_lib, try_except, os_getcwd, os_path_exists,
    os_path_isdir. unfold_m. rewrite Hcwd. fold (lib_dir w).
  destruct (bool_decide (is_Some (w_fs w !! lib_dir w))); simpl; [|done].
  rewrite bool_decide_eq_false_2 by done. done.
Qed.

Lemma cleanup_dir w :
  w_getcwd_fault w = None → w_fs w !! lib_dir w = Some Dir →
  _cleanup_pyvis_lib w =
    match w_rm_fault w with
    | None => (Ok tt, log (EvRmtree (lib_dir w))
                        (with_fs (remove_tree (lib_dir w) (w_fs w)) w))
    | Some (e, gone) =>
        print ("Error cleaning up " +:+ path_join (w_cwd w) "lib"
               +:+ ": " +:+ exn_msg e)
          (with_fs (remove_some (lib_dir w) gone (w_fs w)) w)
    end.
Proof.
  intros Hcwd Hd. unfold _cleanup_pyvis_lib, try_except, os_getcwd, os_path_exists,
    os_path_isdir, shutil_rmtree. unfold_m. rewrite Hcwd. fold (lib_dir w).
  rewrite bool_decide_eq_true_2 by (rewrite Hd; eauto). simpl.
  rewrite bool_decide_eq_true_2 by done. simpl. fold (lib_dir w).
  by destruct (w_rm_fault w) as [[e gone]|].
Qed.

(** A [print] either raises and leaves the world alone, or adds its line. *)
Lemma print_world text w r w' :
  print text w = (r, w') →
  (∃ e, w_print_fault w text = Some e ∧ r = Raise e ∧ w' = w) ∨
  (w_print_fault w text = None ∧ r = Ok tt ∧ w' = log (EvPrint text) w).
Proof.
  unfold print. destruct (w_print_fault w text) as [e|]; intros H; inversion H; eauto.
Qed.

(** The cleanup step touches nothing outside [lib]. *)
Lemma cleanup_lookup_outside w r w' k :
  _cleanup_pyvis_lib w = (r, w') → ¬ within (lib_dir w) k →
  w_fs w' !! k = w_fs w !! k.
Proof.
  intros Hrun Hk. destruct (w_getcwd_fault w) as [e|] eqn:Hcwd.
  { rewrite (cleanup_getcwd_fault w e Hcwd) in Hrun. by inversion Hrun. }
  destruct (decide (w_fs w !! lib_dir w = Some Dir)) as [Hd | Hd].
  - rewrite (cleanup_dir w Hcwd Hd) in Hrun.
    destruct (w_rm_fault w) as [[e gone]|].
    + apply print_world in Hrun as [(e' & _ & _ & ->) | (_ & _ & ->)]; simpl;
        by apply remove_some_lookup_outside.
    + inversion Hrun; subst; simpl. rewrite remove_tree_lookup. by rewrite decide_False.
  - rewrite (cleanup_not_dir w Hcwd Hd) in Hrun. by inversion Hrun.
Qed.

(** When the cleanup step raises: [os.getcwd()] has failed, or the removal
    has failed and the line that reports it could not be printed. *)
Lemma cleanup_raises w e w' :
  _cleanup_pyvis_lib w = (Raise e, w') →
  (w_getcwd_fault w = Some e ∧ w' = w) ∨
  (∃ e0 gone, w_getcwd_fault w = None ∧ w_fs w !! lib_dir w = Some Dir ∧
              w_rm_fault w = Some (e0, gone) ∧
              w_print_fault w ("Error cleaning up " +:+ path_join (w_cwd w) "lib"
                               +:+ ": " +:+ exn_msg e0) = Some e ∧
              w' = with_fs (remove_some (lib_dir w) gone (w_fs w)) w).
Proof.
  intros Hrun. destruct (w_getcwd_fault w) as [e1|] eqn:Hcwd.
  { rewrite (cleanup_getcwd_fault w e1 Hcwd) in Hrun. inversion Hrun; subst. by left. }
  destruct (decide (w_fs w !! lib_dir w = Some Dir)) as [Hd | Hd].
  - rewrite (cleanup_dir w Hcwd Hd) in Hrun.
    destruct (w_rm_fault w) as [[e0 gone]|] eqn:Hrm; [|done].
    apply print_world in Hrun as [(e' & Hp & He & ->) | (_ & He & _)]; [|done].
    inversion He; subst. right. exists e0, gone. simpl in Hp. done.
  - rewrite (cleanup_not_dir w Hcwd Hd) in Hrun. done.
Qed.

(** When the cleanup step returns: there was nothing to remove, the
    directory has been removed, or the removal has failed and one line
    reports it. *)
Lemma cleanup_returns w w' :
  _cleanup_pyvis_lib w = (Ok tt, w') →
  w_getcwd_fault w = None ∧
  ((w_fs w !! lib_dir w ≠ Some Dir ∧ w' = w) ∨
   (w_fs w !! lib_dir w = Some Dir ∧ w_rm_fault w = None ∧
    w' = log (EvRmtree (lib_dir w)) (with_fs (remove_tree (lib_dir w) (w_fs w)) w)) ∨
   (∃ e0 gone, w_fs w !! lib_dir w = Some Dir ∧ w_rm_fault w = Some (e0, gone) ∧
      w' = log (EvPrint ("Error cleaning up " +:+ path_join (w_cwd w) "lib"
                         +:+ ": " +:+ exn_msg e0))
             (with_fs (remove_some (lib_dir w) gone (w_fs w)) w))).
Proof.
  intros Hrun. destruct (w_getcwd_fault w) as [e1|] eqn:Hcwd.
  { by rewrite (cleanup_getcwd_fault w e1 Hcwd) in Hrun. }
  split; [done|].
  destruct (decide (w_fs w !! lib_dir w = Some Dir)) as [Hd | Hd].
  - rewrite (cleanup_dir w Hcwd Hd) in Hrun.
    destruct (w_rm_fault w) as [[e0 gone]|] eqn:Hrm.
    + apply print_world in Hrun as [(e' & _ & He & _) | (_ & _ & ->)]; [done|].
      right. right. exists e0, gone. done.
    + inversion Hrun; subst. right. left. done.
  - rewrite (cleanup_not_dir w Hcwd Hd) in Hrun. inversion Hrun; subst. by left.
Qed.

(** *** The phases of [plot] *)

Lemma plot_phases env flow filename w :
  plot env flow filename w = (plot_render env flow ≫= plot_save filename) w.
Proof.
  unfold plot, plot_render, plot_layout, plot_save, _generate_final_html. unfold_m.
  destruct (getitem (COLORS env) "bg") as [bg|e]; [|done].
  destruct (calculate_node_levels flow) as [levels|e]; [|done].
  destruct (add_nodes_to_network env _ _ _) as [ns|e]; [|done].
  destruct (add_edges env _ _ _) as [es|e]; [|done].
  destruct (generate_html env _ _) as [[html|e] fs1]; [|done].
  destruct (extract_body_content env html) as [body|e]; [|done].
  simpl. destruct (handler_generate_final_html env _ _ _ _ _) as [[final|e] fs2]; done.
Qed.

Lemma plot_render_world env flow w r w1 :
  plot_render env flow w = (r, w1) →
  w1 = with_fs (w_fs w1) w ∧
  ∀ p, leaves_alone env p → w_fs w1 !! p = w_fs w !! p.
Proof.
  unfold plot_render, plot_layout, _generate_final_html. unfold_m.
  intros Hrun.
  destruct (getitem (COLORS env) "bg") as [bg|e];
    [|inversion Hrun; subst; by rewrite with_fs_same].
  destruct (calculate_node_levels flow) as [levels|e];
    [|inversion Hrun; subst; by rewrite with_fs_same].
  destruct (add_nodes_to_network env _ _ _) as [ns|e];
    [|inversion Hrun; subst; by rewrite with_fs_same].
  destruct (add_edges env _ _ _) as [es|e];
    [|inversion Hrun; subst; by rewrite with_fs_same].
  destruct (generate_html env (plot_network bg ns es) (w_fs w))
    as [r1 fs1] eqn:Hgen.
  assert (Hfs1 : ∀ p, leaves_alone env p → fs1 !! p = w_fs w !! p).
  { intros p [Hg _]. specialize (Hg (plot_network bg ns es) (w_fs w)).
    by rewrite Hgen in Hg. }
  destruct r1 as [html|e]; [|inversion Hrun; subst; done].
  destruct (extract_body_content env html) as [body|e];
    [|inversion Hrun; subst; done].
  simpl in Hrun.
  destruct (handler_generate_final_html env _ _ _ _ fs1) as [r2 fs2] eqn:Hfin.
  inversion Hrun; subst. split; [done|].
  intros p Hp. simpl. rewrite <- (Hfs1 p Hp). destruct Hp as [_ Hh].
  match type of Hfin with ?f ?a ?b ?c ?d ?e ?g = _ => specialize (Hh b c d e g) end.
  by rewrite Hfin in Hh.
Qed.

(** The outcomes of opening and writing the output file: the open fails and
    nothing has happened, the write fails and the file holds part of the
    page, or the file holds the page. *)
Lemma plot_save_cases filename html w :
  let a := artifact_path w filename in
  (∃ e, plot_save filename html w = (Raise e, w)) ∨
  (∃ n w', plot_save filename html w =
             (Raise {| exn_class := OSError; exn_msg := "No space left on device" |}, w') ∧
           w_quota w = Some n ∧ n < String.length html ∧
           w_fs w' = <[ a := File (String.substring 0 n html) ]> (w_fs w) ∧
           w_trace w' = w_trace w ++ [EvOpen a]) ∨
  (∃ w3, plot_save filename html w =
           (print ("Plot saved as " +:+ filename +:+ ".html") ;; _cleanup_pyvis_lib) w3 ∧
         w_fs w3 = <[ a := File html ]> (w_fs w) ∧
         w_cwd w3 = w_cwd w ∧ w_rm_fault w3 = w_rm_fault w ∧
         w_getcwd_fault w3 = w_getcwd_fault w ∧ w_print_fault w3 = w_print_fault w ∧
         w_trace w3 = w_trace w ++ [EvOpen a; EvWrite a html]).
Proof.
  intros a. unfold plot_save, open_w, file_write. unfold_m.
  fold (artifact_path w filename). fold a.
  destruct (walk (w_fs w) [] _) as [stack|e]; [|left; eauto].
  destruct (names_directory _); [left; eauto|].
  assert (Hopen : w_fs w !! a = Some Dir ∨ w_fs w !! a ≠ Some Dir).
  { destruct (decide (w_fs w !! a = Some Dir)); eauto. }
  destruct Hopen as [Hd | Hnd].
  { left. rewrite Hd. eauto. }
  destruct (decide (a ∈ w_readonly w)) as [Hro | Hrw].
  { left. destruct (w_fs w !! a) as [[c|]|]; [| done |]; eauto. }
  right.
  assert (Hstep :
            match w_fs w !! a with
            | Some Dir => (Raise {| exn_class := IsADirectoryError; exn_msg := a |}, w)
            | _ => (Ok a, log (EvOpen a) (with_fs (<[a:=File ""]> (w_fs w)) w))
            end = (Ok a, log (EvOpen a) (with_fs (<[a:=File ""]> (w_fs w)) w))).
  { destruct (w_fs w !! a) as [[c|]|]; done. }
  rewrite Hstep. simpl.
  destruct (w_quota w) as [n|] eqn:Hq.
  - destruct (decide (n < String.length html)) as [Hlt | Hge].
    + left. eexists n, _. split; [done|]. simpl.
      split; [done|]. split; [done|]. split; [by rewrite insert_insert_eq | done].
    + right. eexists. split; [done|]. simpl.
      split; [by rewrite insert_insert_eq|]. repeat (split; [done|]).
      by rewrite <- !app_assoc.
  - right. eexists. split; [done|]. simpl.
    split; [by rewrite insert_insert_eq|]. repeat (split; [done|]).
    by rewrite <- !app_assoc.
Qed.

(** An output path that names a directory cannot be opened. *)
Lemma plot_save_directory filename html w :
  w_fs w !! artifact_path w filename = Some Dir →
  ∃ e, plot_save filename html w = (Raise e, w).
Proof.
  intros Hd. unfold plot_save, open_w. unfold_m.
  fold (artifact_path w filename).
  destruct (walk (w_fs w) [] _) as [stack|e]; [|eauto].
  destruct (names_directory _); [eauto|]. rewrite Hd. eauto.
Qed.

(** Every way a call of [plot] can go.  It ends before the output file is
    written to (some step up to the open has failed), with the failure of
    the write, or with the page in the file; then the notice is printed and
    the cleanup step runs, unless the notice cannot be printed. *)
Lemma plot_outcomes env flow filename w r w' :
  plot env flow filename w = (r, w') →
  let a := artifact_path w filename in
  let saved := "Plot saved as " +:+ filename +:+ ".html" in
  (∃ e, r = Raise e ∧ w_trace w' = w_trace w ∧
        ∀ p, leaves_alone env p → w_fs w' !! p = w_fs w !! p) ∨
  (∃ html w1 n,
     plot_render env flow w = (Ok html, w1) ∧
     (∀ p, leaves_alone env p → w_fs w1 !! p = w_fs w !! p) ∧
     r = Raise {| exn_class := OSError; exn_msg := "No space left on device" |} ∧
     w_quota w = Some n ∧ n < String.length html ∧
     w_fs w' = <[ a := File (String.substring 0 n html) ]> (w_fs w1) ∧
     w_trace w' = w_trace w ++ [EvOpen a]) ∨
  (∃ html w1 w3,
     plot_render env flow w = (Ok html, w1) ∧
     (∀ p, leaves_alone env p → w_fs w1 !! p = w_fs w !! p) ∧
     w_fs w3 = <[ a := File html ]> (w_fs w1) ∧
     w_cwd w3 = w_cwd w ∧ w_rm_fault w3 = w_rm_fault w ∧
     w_getcwd_fault w3 = w_getcwd_fault w ∧ w_print_fault w3 = w_print_fault w ∧
     w_trace w3 = w_trace w ++ [EvOpen a; EvWrite a html] ∧
     ((∃ e, r = Raise e ∧ w_print_fault w saved = Some e ∧ w' = w3) ∨
      (w_print_fault w saved = None ∧
       _cleanup_pyvis_lib (log (EvPrint saved) w3) = (r, w')))).
Proof.
  intros Hrun a saved. subst saved. rewrite plot_phases in Hrun.
  unfold mbind, M_bind, bind in Hrun.
  destruct (plot_render env flow w) as [[html|e1] w1] eqn:Hrender.
  - destruct (plot_render_world env flow w _ w1 Hrender) as [Hw1 Hfs1].
    assert (Hpath : artifact_path w1 filename = a)
      by (apply artifact_path_same_cwd; by rewrite Hw1).
    destruct (plot_save_cases filename html w1)
      as [(e2 & Hsave) | [(n & w2 & Hsave & Hq & Hlt & Hfs & Htr) |
                          (w3 & Hsave & Hfs & Hcwd & Hrm & Hgc & Hpr & Htr)]];
      rewrite Hsave in Hrun.
    + inversion Hrun; subst. left. exists e2. split; [done|].
      split; [by rewrite Hw1 | done].
    + inversion Hrun; subst. right. left. exists html, w1, n.
      split; [done|]. split; [done|]. split; [done|].
      split; [by rewrite Hw1 in Hq|]. split; [done|].
      split; [by rewrite Hfs, Hpath | by rewrite Htr, Hpath, Hw1].
    + assert (Hpr1 : w_print_fault w1 = w_print_fault w) by (by rewrite Hw1).
      right. right. exists html, w1, w3. split; [done|]. split; [done|].
      split; [by rewrite Hfs, Hpath|].
      split; [by rewrite Hcwd, Hw1|]. split; [by rewrite Hrm, Hw1|].
      split; [by rewrite Hgc, Hw1|]. split; [congruence|].
      split; [by rewrite Htr, Hpath, Hw1|].
      unfold mbind, M_bind, bind in Hrun.
      destruct (print _ w3) as [rp wp] eqn:Hp.
      apply print_world in Hp as [(e & Hf & -> & ->) | (Hf & -> & ->)].
      * left. exists e. inversion Hrun; subst. split; [done|].
        split; [congruence | done].
      * right. split; [congruence | done].
  - inversion Hrun; subst. left. exists e1.
    destruct (plot_render_world env flow w _ w' Hrender) as [Hw1 Hfs1].
    split; [done|]. split; [by rewrite Hw1 | done].
Qed.

End FlowPlotFacts.

Section Layout.
Import LevelAssigner LevelAssignerFacts.

Lemma valid_flow_edge flow i e :
  valid_flow flow = true → flow_edges flow !! i = Some e →
  edge_src e ∈ node_ids flow ∧ edge_dst e ∈ node_ids flow.
Proof.
  intros Hv Hi. unfold valid_flow in Hv. apply andb_prop in Hv as [Hedges _].
  rewrite forallb_forall in Hedges.
  assert (Hin : In e (flow_edges flow)).
  { apply list_elem_of_In. by eapply list_elem_of_lookup_2. }
  apply Hedges in Hin. unfold valid_edge, declared in Hin.
  apply andb_prop in Hin as [Hs Hd].
  by split; eapply bool_decide_eq_true_1.
Qed.

Lemma calculate_node_levels_ok flow :
  valid_flow flow = true →
  ∃ st, level_assigner flow = Some st ∧
        calculate_node_levels flow = Ok (la_levels st).
Proof.
  intros Hv. destruct (level_assigner_total flow) as [st Hst]. exists st.
  split; [done|]. unfold calculate_node_levels. by rewrite Hv, Hst.
Qed.

(** C1. For every flow graph that meets the input contract the pass returns,
    and in the level assignment that [calculate_node_levels] hands back every
    edge (u→v) that is not classified cyclic has level(v) ≥ level(u) + 1.
    On an acyclic graph no edge is reclassified, so none is exempt. *)
Theorem calculate_node_levels_edges_ascend (flow : FlowGraph) :
  valid_flow flow = true →
  ∃ st, level_assigner flow = Some st ∧
        calculate_node_levels flow = Ok (la_levels st) ∧
        (∀ i e, classified_edges flow st !! i = Some e → edge_kind e ≠ Cyclic →
           ∃ lu lv, la_levels st !! edge_src e = Some lu ∧
                    la_levels st !! edge_dst e = Some lv ∧
                    lu + 1 ≤ lv) ∧
        (acyclic (flow_edges flow) → classified_edges flow st = flow_edges flow).
Proof.
  intros Hv. destruct (calculate_node_levels_ok flow Hv) as (st & Hst & Hcalc).
  exists st. split; [done|]. split; [done|].
  destruct (level_assigner_inv flow st Hst) as [Hinv Hall].
  split; [|intros Hac; by apply classified_edges_unmarked, (level_assigner_acyclic flow)].
  intros i e Hi Hkind. rewrite classified_edges_lookup in Hi.
  destruct (flow_edges flow !! i) as [e0|] eqn:Hi0; [|done].
  simpl in Hi. inversion Hi; subst e; clear Hi.
  destruct (reclassify_kind st i e0 Hkind) as [Hnc ->].
  destruct (valid_flow_edge flow i e0 Hv Hi0) as [_ Hd].
  destruct (Hall _ Hd) as [lv Hlv].
  destruct (inv_monotone _ _ _ Hinv i e0 lv Hi0 Hnc Hlv) as (lu & Hlu & Hlt).
  exists lu, lv. split; [done|]. split; [done | lia].
Qed.

(** C2. On every flow graph that contains two opposite edges between two
    distinct nodes, both normal or conditional, the pass returns; one of the
    two edges is reclassified cyclic, the other is left as it was, and so
    the two are never both cyclic. *)
Theorem direct_cycle_one_edge_cyclic (flow : FlowGraph) (i j : nat)
    (e1 e2 : FlowGraphEdge) :
  valid_flow flow = true →
  flow_edges flow !! i = Some e1 → flow_edges flow !! j = Some e2 →
  edge_src e1 = edge_dst e2 → edge_dst e1 = edge_src e2 →
  edge_src e1 ≠ edge_dst e1 →
  edge_kind e1 ≠ Cyclic → edge_kind e2 ≠ Cyclic →
  ∃ st e1' e2',
    level_assigner flow = Some st ∧
    classified_edges flow st !! i = Some e1' ∧
    classified_edges flow st !! j = Some e2' ∧
    ((edge_kind e1' = Cyclic ∧ e2' = e2) ∨ (e1' = e1 ∧ edge_kind e2' = Cyclic)) ∧
    ¬ (edge_kind e1' = Cyclic ∧ edge_kind e2' = Cyclic).
Proof.
  intros Hv Hi Hj Hsd Hds Hne Hk1 Hk2.
  destruct (level_assigner_total flow) as [st Hst].
  destruct (level_assigner_inv flow st Hst) as [Hinv Hall].
  exists st, (reclassify st i e1), (reclassify st j e2).
  split; [done|]. rewrite !classified_edges_lookup, Hi, Hj.
  split; [done|]. split; [done|].
  assert (Hone : (edge_kind (reclassify st i e1) = Cyclic ∧ reclassify st j e2 = e2) ∨
                 (reclassify st i e1 = e1 ∧ edge_kind (reclassify st j e2) = Cyclic));
    [|split; [done|]; intros [Hc1 Hc2]; destruct Hone as [[_ Heq] | [Heq _]];
      rewrite Heq in *; done].
  destruct (valid_flow_edge flow i e1 Hv Hi) as [Hs1 Hd1].
  destruct (Hall _ Hs1) as [la Hla]. destruct (Hall _ Hd1) as [lb Hlb].
  unfold reclassify.
  destruct (decide (i ∈ la_cyclic st)) as [Hci | Hci];
    destruct (decide (j ∈ la_cyclic st)) as [Hcj | Hcj]; simpl.
  - exfalso. by apply (inv_opposite _ _ _ Hinv i j e1 e2).
  - by left.
  - by right.
  - exfalso.
    destruct (inv_monotone _ _ _ Hinv i e1 lb Hi Hci Hlb) as (la' & Hla' & Hlt1).
    rewrite Hsd in Hla'.
    destruct (inv_monotone _ _ _ Hinv j e2 la' Hj Hcj Hla') as (lb' & Hlb' & Hlt2).
    rewrite <- Hds, Hlb in Hlb'. inversion Hlb'; subst. lia.
Qed.

(** A graph whose edges all go up along some ranking has no cycle. *)
Lemma ranked_acyclic (es : list FlowGraphEdge) (rank : string → nat) :
  (∀ i e, es !! i = Some e → rank (edge_src e) < rank (edge_dst e)) →
  acyclic es.
Proof.
  intros Hrank.
  assert (Hup : ∀ x y, reaches es x y → rank x < rank y).
  { intros x y Hxy. induction Hxy as [i e Hi | x y z _ IH1 _ IH2]; [eauto | lia]. }
  intros x Hx. apply Hup in Hx. lia.
Qed.

End Layout.

Section Plot.
Import FlowPlot FlowPlotFacts.

Lemma written_app t t' : written (t ++ t') = written t ++ written t'.
Proof. unfold written. apply omap_app. Qed.

Lemma cleanup_written w r w' :
  _cleanup_pyvis_lib w = (r, w') → written (w_trace w') = written (w_trace w).
Proof.
  intros Hrun. destruct r as [[]|e].
  - apply cleanup_returns in Hrun
      as [_ [[_ ->] | [(_ & _ & ->) | (e0 & gone & _ & _ & ->)]]];
      [done | |]; simpl; rewrite written_app; simpl; by rewrite app_nil_r.
  - apply cleanup_raises in Hrun
      as [[_ ->] | (e0 & gone & _ & _ & _ & _ & ->)]; done.
Qed.

(** A [plot] that returns has written the page it generated, once. *)
Lemma plot_returns_written env flow filename w w' :
  plot env flow filename w = (Ok tt, w') →
  ∃ html w1, plot_render env flow w = (Ok html, w1) ∧
             written (w_trace w') =
               written (w_trace w) ++ [(artifact_path w filename, html)].
Proof.
  intros Hrun. pose proof (plot_outcomes _ _ _ _ _ _ Hrun) as Hcases.
  cbv zeta in Hcases.
  destruct Hcases as [(e0 & He & _) | [(html & w1 & n & _ & _ & He & _) |
    (html & w1 & w3 & Hr & _ & _ & _ & _ & _ & _ & Htr3 & Htail)]]; [done | done |].
  exists html, w1. split; [done|].
  destruct Htail as [(e1 & He & _) | (_ & Hc)]; [done|].
  rewrite (cleanup_written _ _ _ Hc). simpl.
  rewrite Htr3, !written_app. simpl. by rewrite app_nil_r.
Qed.

(** C3, amended. A failing [plot] leaves the output location as it was,
    unless the failure is that of writing into the file it has opened: the
    file is opened only once layout and page generation have succeeded, and
    when the device then refuses the text the file keeps the part that was
    taken.  The failure reaches the caller in both cases.  A failure that
    comes later still (the notice cannot be printed, the cleanup step
    raises) finds the page written in full. *)
Theorem plot_failure_output_location (env : Env) (flow : FlowGraph)
    (filename : string) (w w' : World) (e : PyExn) :
  plot env flow filename w = (Raise e, w') →
  leaves_alone env (artifact_path w filename) →
  (w_fs w' !! artifact_path w filename = w_fs w !! artifact_path w filename ∧
   w_trace w' = w_trace w) ∨
  (∃ html w1 n,
     plot_render env flow w = (Ok html, w1) ∧
     exn_class e = OSError ∧ w_quota w = Some n ∧ n < String.length html ∧
     w_fs w' !! artifact_path w filename = Some (File (String.substring 0 n html))) ∨
  (∃ html w1,
     plot_render env flow w = (Ok html, w1) ∧
     (w_getcwd_fault w = Some e ∨ ∃ text, w_print_fault w text = Some e) ∧
     written (w_trace w') = written (w_trace w) ++ [(artifact_path w filename, html)] ∧
     (w_fs w' !! artifact_path w filename = Some (File html) ∨
      within (lib_dir w) (artifact_path w filename))).
Proof.
  intros Hrun Halone. pose proof (plot_outcomes _ _ _ _ _ _ Hrun) as Hcases.
  cbv zeta in Hcases.
  destruct Hcases as [(e0 & He & Htr & Hfs) |
    [(html & w1 & n & Hr & Hfs1 & He & Hq & Hlt & Hfs & Htr) |
     (html & w1 & w3 & Hr & Hfs1 & Hfs3 & Hcwd & Hrm & Hgc & Hpr & Htr3 & Htail)]].
  - left. split; [by apply Hfs | done].
  - right. left. exists html, w1, n. inversion He; subst e.
    repeat (split; [done|]). by rewrite Hfs, lookup_insert_eq.
  - right. right. exists html, w1. split; [done|].
    assert (Hw3 : written (w_trace w3) =
                  written (w_trace w) ++ [(artifact_path w filename, html)]).
    { rewrite Htr3, written_app. done. }
    assert (Hin3 : w_fs w3 !! artifact_path w filename = Some (File html))
      by (by rewrite Hfs3, lookup_insert_eq).
    destruct Htail as [(e1 & He & Hf & ->) | (Hf & Hc)].
    + inversion He; subst e1. split; [right; eauto|]. split; [done | by left].
    + rewrite (cleanup_written _ _ _ Hc). simpl. rewrite written_app, Hw3. simpl.
      rewrite app_nil_r.
      apply cleanup_raises in Hc
        as [[Hg ->] | (e0 & gone & _ & _ & _ & Hp & ->)]; simpl in *.
      * split; [left; congruence|]. split; [done | by left].
      * split; [right; exists ("Error cleaning up " +:+ path_join (w_cwd w3) "lib"
                               +:+ ": " +:+ exn_msg e0); congruence|].
        split; [done|].
        destruct (decide (within (lib_dir w) (artifact_path w filename)))
          as [Hin | Hout]; [by right|]. left.
        rewrite remove_some_lookup_outside; [done|].
        by rewrite (lib_dir_same_cwd w) by done.
Qed.

(** C4, amended. When [plot] returns normally and the removal does not
    fail, no [lib] directory is left under the working directory; when
    [plot] raises before the page is written, the cleanup step is not
    reached: all that [plot] itself has done to the outside by then is, at
    most, to open the output file.  A [plot] that raises later has written
    the page and has removed no directory. *)
Theorem plot_cleanup_on_normal_return (env : Env) (flow : FlowGraph)
    (filename : string) (w w' : World) (r : result unit) :
  plot env flow filename w = (r, w') →
  match r with
  | Ok _ => w_rm_fault w = None → w_fs w' !! lib_dir w ≠ Some Dir
  | Raise e =>
      w_trace w' = w_trace w ∨
      w_trace w' = w_trace w ++ [EvOpen (artifact_path w filename)] ∨
      ∃ html,
        (w_getcwd_fault w = Some e ∨ ∃ text, w_print_fault w text = Some e) ∧
        (w_trace w' = w_trace w ++ [EvOpen (artifact_path w filename);
                                    EvWrite (artifact_path w filename) html] ∨
         w_trace w' = w_trace w ++ [EvOpen (artifact_path w filename);
                                    EvWrite (artifact_path w filename) html;
                                    EvPrint ("Plot saved as " +:+ filename +:+ ".html")])
  end.
Proof.
  intros Hrun. pose proof (plot_outcomes _ _ _ _ _ _ Hrun) as Hcases.
  cbv zeta in Hcases.
  destruct Hcases as [(e0 & He & Htr & Hfs) |
    [(html & w1 & n & Hr & Hfs1 & He & Hq & Hlt & Hfs & Htr) |
     (html & w1 & w3 & Hr & Hfs1 & Hfs3 & Hcwd & Hrm & Hgc & Hpr & Htr3 & Htail)]].
  - subst r. by left.
  - subst r. right. by left.
  - destruct Htail as [(e1 & He & Hf & ->) | (Hf & Hc)].
    + subst r. right. right. exists html. split; [right; eauto | by left].
    + assert (Hlib : lib_dir (log (EvPrint ("Plot saved as " +:+ filename +:+ ".html")) w3)
                     = lib_dir w) by (by apply lib_dir_same_cwd).
      destruct r as [[]|e].
      * intros Hnofault.
        apply cleanup_returns in Hc
          as [_ [[Hnd ->] | [(_ & _ & ->) | (e0 & gone & _ & Hrm' & _)]]];
          simpl in *.
        -- by rewrite <- Hlib.
        -- rewrite remove_tree_lookup, Hlib.
           by rewrite decide_True by apply within_self.
        -- congruence.
      * right. right. exists html.
        apply cleanup_raises in Hc
          as [[Hg ->] | (e0 & gone & _ & _ & _ & Hp & ->)]; simpl in *.
        -- split; [left; congruence|]. right. by rewrite Htr3, <- app_assoc.
        -- split; [right; exists ("Error cleaning up " +:+ path_join (w_cwd w3) "lib"
                                   +:+ ": " +:+ exn_msg e0); congruence|].
           right. by rewrite Htr3, <- app_assoc.
Qed.

End Plot.

Section Plot2.
Import FlowPlot FlowPlotFacts.

(** C6, amended. A call of [plot_flow] that returns has written exactly one
    document, the generated page, at the path made of the caller's base
    name and the suffix [.html]; without a name the base is [flow_plot].
    The page is in that file on return, unless the caller put it inside the
    [lib] directory that the cleanup step removes.  A call that raises has
    written no document, or that one. *)
Theorem plot_flow_writes_one_html_document (env : Env) (flow : FlowGraph)
    (filename : option string) (w w' : World) (r : result unit) :
  plot_flow env flow filename w = (r, w') →
  let target := abspath w (default "flow_plot" filename +:+ ".html") in
  (filename = None → target = abspath w "flow_plot.html") ∧
  match r with
  | Ok _ => ∃ html w1, plot_render env flow w = (Ok html, w1) ∧
                       written (w_trace w') = written (w_trace w) ++ [(target, html)] ∧
                       (¬ within (lib_dir w) target →
                        w_fs w' !! target = Some (File html))
  | Raise _ => written (w_trace w') = written (w_trace w) ∨
               ∃ html w1, plot_render env flow w = (Ok html, w1) ∧
                          written (w_trace w') = written (w_trace w) ++ [(target, html)]
  end.
Proof.
  intros Hrun target. split; [by intros ->|].
  unfold plot_flow in Hrun. subst target.
  set (name := default "flow_plot" filename) in *.
  fold (artifact_path w name).
  pose proof (plot_outcomes _ _ _ _ _ _ Hrun) as Hcases. cbv zeta in Hcases.
  destruct Hcases as [(e0 & He & Htr & Hfs) |
    [(html & w1 & n & Hr & Hfs1 & He & Hq & Hlt & Hfs & Htr) |
     (html & w1 & w3 & Hr & Hfs1 & Hfs3 & Hcwd & Hrm & Hgc & Hpr & Htr3 & Htail)]].
  - subst r. left. by rewrite Htr.
  - subst r. left. rewrite Htr, written_app. simpl. by rewrite app_nil_r.
  - assert (Hw3 : written (w_trace w3) =
                  written (w_trace w) ++ [(artifact_path w name, html)]).
    { rewrite Htr3, written_app. done. }
    assert (Hin3 : w_fs w3 !! artifact_path w name = Some (File html))
      by (by rewrite Hfs3, lookup_insert_eq).
    destruct Htail as [(e1 & He & Hf & ->) | (Hf & Hc)].
    + subst r. right. by exists html, w1.
    + assert (Hw' : written (w_trace w') =
                    written (w_trace w) ++ [(artifact_path w name, html)]).
      { rewrite (cleanup_written _ _ _ Hc). simpl. rewrite written_app, Hw3. simpl.
        by rewrite app_nil_r. }
      destruct r as [[]|e]; [|right; by exists html, w1].
      exists html, w1. split; [done|]. split; [done|]. intros Hout.
      rewrite (cleanup_lookup_outside _ _ _ _ Hc); [done|].
      by rewrite (lib_dir_same_cwd w) by done.
Qed.








(** C9, amended. The cleanup step looks at [lib] under the working
    directory only: when it is a directory, and the removal goes through,
    the directory and everything below it are gone and every other path is
    as before, whoever created the directory; when the removal fails the
    directory stays; when it is no directory the world is unchanged. *)
Theorem cleanup_pyvis_lib_frame (w : World) :
  (w_getcwd_fault w = None → w_fs w !! lib_dir w = Some Dir → w_rm_fault w = None →
   ∀ k, w_fs (_cleanup_pyvis_lib w).2 !! k =
        if decide (within (lib_dir w) k) then None else w_fs w !! k) ∧
  (∀ e gone, w_rm_fault w = Some (e, gone) → w_fs w !! lib_dir w = Some Dir →
   w_fs (_cleanup_pyvis_lib w).2 !! lib_dir w = Some Dir ∧
   ∀ k, ¬ within (lib_dir w) k → w_fs (_cleanup_pyvis_lib w).2 !! k = w_fs w !! k) ∧
  (w_fs w !! lib_dir w ≠ Some Dir → (_cleanup_pyvis_lib w).2 = w).
Proof.
  split; [|split].
  - intros Hcwd Hd Hrm k. rewrite (cleanup_dir w Hcwd Hd), Hrm. simpl.
    apply remove_tree_lookup.
  - intros e gone Hrm Hd.
    destruct (_cleanup_pyvis_lib w) as [r w'] eqn:Hrun. simpl.
    split; [|intros k Hk; by apply (cleanup_lookup_outside w r)].
    destruct (w_getcwd_fault w) as [e1|] eqn:Hcwd.
    { rewrite (cleanup_getcwd_fault w e1 Hcwd) in Hrun. by inversion Hrun; subst. }
    rewrite (cleanup_dir w Hcwd Hd), Hrm in Hrun.
    apply print_world in Hrun as [(e' & _ & _ & ->) | (_ & _ & ->)]; simpl;
      by rewrite remove_some_lookup_self.
  - intros Hd. destruct (w_getcwd_fault w) as [e1|] eqn:Hcwd.
    + by rewrite (cleanup_getcwd_fault w e1 Hcwd).
    + by rewrite (cleanup_not_dir w Hcwd Hd).
Qed.

End Plot2.

(** C10. With [langchain_core] importable, [Tool.to_langchain] returns
    [None] for every tool; the LangChain tool it constructs is dropped, so
    no call, importable or not, ever hands one back. *)
Theorem Tool_to_langchain_returns_None (self : BaseTool.Tool) :
  BaseTool.to_langchain true self = Ok BaseTool.PyNone ∧
  ∀ importable t,
    BaseTool.to_langchain importable self ≠ Ok (BaseTool.PyLangChainTool t).
Proof.
  split; [reflexivity|].
  intros importable t. unfold BaseTool.to_langchain, BaseTool.import_langchain_core.
  destruct importable; simpl; discriminate.
Qed.

Section Instances.
Import LevelAssigner FlowPlot Examples.

(** The end-to-end flow of section 8 gets the levels 0, 1 and 2. *)
Example diamond_levels :
  calculate_node_levels diamond =
    Ok {[ "start" := 0; "stepA" := 1; "stepB" := 2 ]}.
Proof. vm_compute. reflexivity. Qed.

Example ping_pong_classified :
  (λ st, (la_levels st !! "A", la_levels st !! "B", map edge_kind (classified_edges ping_pong st)))
    <$> level_assigner ping_pong
  = Some (Some 1, Some 0, [Cyclic; Normal]).
Proof. vm_compute. reflexivity. Qed.

Lemma calculate_node_levels_edges_ascend_witness :
  ∃ st, level_assigner diamond = Some st ∧
        calculate_node_levels diamond = Ok (la_levels st) ∧
        (∀ i e, classified_edges diamond st !! i = Some e → edge_kind e ≠ Cyclic →
           ∃ lu lv, la_levels st !! edge_src e = Some lu ∧
                    la_levels st !! edge_dst e = Some lv ∧
                    lu + 1 ≤ lv) ∧
        (acyclic (flow_edges diamond) → classified_edges diamond st = flow_edges diamond).
Proof. apply (calculate_node_levels_edges_ascend diamond). reflexivity. Defined.

(** The flow of the example has no cycle. *)
Example diamond_acyclic : acyclic (flow_edges diamond).
Proof.
  apply (ranked_acyclic _ (λ s, if decide (s = "start") then 0
                               else if decide (s = "stepA") then 1 else 2)).
  intros [|[|[|i]]] e Hi; simpl in Hi; inversion Hi; subst; simpl; lia.
Qed.

Lemma direct_cycle_one_edge_cyclic_witness :
  ∃ st e1' e2',
    level_assigner ping_pong = Some st ∧
    classified_edges ping_pong st !! 0 = Some e1' ∧
    classified_edges ping_pong st !! 1 = Some e2' ∧
    ((edge_kind e1' = Cyclic ∧ e2' = listens "B" "A") ∨
     (e1' = listens "A" "B" ∧ edge_kind e2' = Cyclic)) ∧
    ¬ (edge_kind e1' = Cyclic ∧ edge_kind e2' = Cyclic).
Proof.
  apply (direct_cycle_one_edge_cyclic ping_pong 0 1 (listens "A" "B") (listens "B" "A"));
    try reflexivity; simpl; discriminate.
Defined.

(** C3, as stated, fails: the device runs full while the opened file is
    written; [plot] raises, and a file that was not there before holds the
    first five characters of the page. *)
Lemma plot_write_failure_leaves_partial_file :
  ∃ w' w1,
    plot pyvis_env diamond "out" full_disk_world =
      (Raise {| exn_class := OSError; exn_msg := "No space left on device" |}, w') ∧
    plot_render pyvis_env diamond full_disk_world =
      (Ok "<!doctype html><html><body>net</body></html>", w1) ∧
    w_fs full_disk_world !! "/work/out.html" = None ∧
    w_fs w' !! "/work/out.html" = Some (File "<!doc").
Proof. do 2 eexists. vm_compute. repeat split; reflexivity. Qed.

(** C4, as stated, fails: pyvis has left its [lib] directory, the target
    cannot be opened, [plot] raises and the directory stays. *)
Lemma plot_failure_leaves_lib_directory :
  ∃ w',
    plot pyvis_env diamond "out" readonly_world =
      (Raise {| exn_class := PermissionError; exn_msg := "/work/out.html" |}, w') ∧
    w_fs readonly_world !! "/work/lib" = None ∧
    w_fs w' !! "/work/lib" = Some Dir ∧
    w_fs w' !! "/work/lib/bindings/utils.js" = Some (File "js").
Proof. eexists. vm_compute. repeat split; reflexivity. Qed.

(** C6, as stated, fails: the target cannot be opened, [plot_flow] raises
    and no document has been written anywhere. *)
Lemma plot_flow_unwritable_target_writes_nothing :
  ∃ w',
    plot_flow pyvis_env diamond (Some "out") readonly_world =
      (Raise {| exn_class := PermissionError; exn_msg := "/work/out.html" |}, w') ∧
    written (w_trace w') = [] ∧
    w_fs w' !! "/work/out.html" = None.
Proof. eexists. vm_compute. repeat split; reflexivity. Qed.


(** C9, as stated, fails: [lib] exists and is a directory, the removal is
    refused, the cleanup step returns and the directory is still there. *)
Lemma cleanup_leaves_locked_lib :
  lib_dir locked_lib_world = "/work/lib" ∧
  w_fs locked_lib_world !! "/work/lib" = Some Dir ∧
  (_cleanup_pyvis_lib locked_lib_world).1 = Ok tt ∧
  w_fs (_cleanup_pyvis_lib locked_lib_world).2 !! "/work/lib" = Some Dir.
Proof. vm_compute. repeat split; reflexivity. Qed.

Lemma pyvis_env_leaves_alone p :
  p ≠ "/work/lib" → p ≠ "/work/lib/bindings" → p ≠ "/work/lib/bindings/utils.js" →
  leaves_alone pyvis_env p.
Proof.
  intros H1 H2 H3. split; [|done]. intros net fs. simpl.
  by rewrite !lookup_insert_ne.
Qed.

Lemma plot_failure_output_location_witness :
  let w := readonly_world in
  let w' := (plot pyvis_env diamond "out" w).2 in
  let e := {| exn_class := PermissionError; exn_msg := "/work/out.html" |} in
  (w_fs w' !! artifact_path w "out" = w_fs w !! artifact_path w "out" ∧
   w_trace w' = w_trace w) ∨
  (∃ html w1 n,
     plot_render pyvis_env diamond w = (Ok html, w1) ∧
     exn_class e = OSError ∧
     w_quota w = Some n ∧ n < String.length html ∧
     w_fs w' !! artifact_path w "out" = Some (File (String.substring 0 n html))) ∨
  (∃ html w1,
     plot_render pyvis_env diamond w = (Ok html, w1) ∧
     (w_getcwd_fault w = Some e ∨ ∃ text, w_print_fault w text = Some e) ∧
     written (w_trace w') = written (w_trace w) ++ [(artifact_path w "out", html)] ∧
     (w_fs w' !! artifact_path w "out" = Some (File html) ∨
      within (lib_dir w) (artifact_path w "out"))).
Proof.
  apply (plot_failure_output_location pyvis_env diamond "out" readonly_world).
  - vm_compute. reflexivity.
  - apply pyvis_env_leaves_alone; vm_compute; discriminate.
Defined.

Lemma plot_cleanup_on_normal_return_witness :
  (plot pyvis_env diamond "out" empty_world).1 = Ok tt ∧
  (w_rm_fault empty_world = None →
   w_fs (plot pyvis_env diamond "out" empty_world).2 !! lib_dir empty_world ≠ Some Dir).
Proof.
  split; [vm_compute; reflexivity|].
  apply (plot_cleanup_on_normal_return pyvis_env diamond "out" empty_world
           (plot pyvis_env diamond "out" empty_world).2 (Ok tt)).
  vm_compute. reflexivity.
Defined.

Lemma plot_flow_writes_one_html_document_witness :
  let w := empty_world in
  let w' := (plot_flow pyvis_env diamond None w).2 in
  (@None string = None → abspath w (default "flow_plot" None +:+ ".html") = abspath w "flow_plot.html") ∧
  ∃ html w1, plot_render pyvis_env diamond w = (Ok html, w1) ∧
             written (w_trace w') =
               written (w_trace w) ++ [(abspath w (default "flow_plot" None +:+ ".html"), html)] ∧
             (¬ within (lib_dir w) (abspath w (default "flow_plot" None +:+ ".html")) →
              w_fs w' !! abspath w (default "flow_plot" None +:+ ".html") = Some (File html)).
Proof.
  apply (plot_flow_writes_one_html_document pyvis_env diamond None empty_world
           (plot_flow pyvis_env diamond None empty_world).2 (Ok tt)).
  vm_compute. reflexivity.
Defined.



(** The default name in the example: one document, at [/work/flow_plot.html]. *)
Example plot_flow_default_name :
  written (w_trace (plot_flow pyvis_env diamond None empty_world).2) =
    [("/work/flow_plot.html", "<!doctype html><html><body>net</body></html>")].
Proof. vm_compute. reflexivity. Qed.

(** An artifact put inside [lib] does not survive the call, however the
    caller spells the path. *)
Example plot_flow_into_lib :
  (plot_flow pyvis_env diamond (Some "./lib/../lib/plot") empty_world).1 = Ok tt ∧
  written (w_trace (plot_flow pyvis_env diamond (Some "./lib/../lib/plot") empty_world).2) =
    [("/work/lib/plot.html", "<!doctype html><html><body>net</body></html>")] ∧
  w_fs (plot_flow pyvis_env diamond (Some "./lib/../lib/plot") empty_world).2
    !! "/work/lib/plot.html" = None.
Proof. vm_compute. repeat split; reflexivity. Qed.

(** A name with a directory that is not there: the file cannot be opened,
    also when the path comes back out of that directory. *)
Example plot_flow_missing_directory :
  (plot_flow pyvis_env diamond (Some "reports/out") empty_world).1 =
    Raise {| exn_class := FileNotFoundError; exn_msg := "/work/reports" |} ∧
  (plot_flow pyvis_env diamond (Some "reports/../out") empty_world).1 =
    Raise {| exn_class := FileNotFoundError; exn_msg := "/work/reports" |} ∧
  w_fs (plot_flow pyvis_env diamond (Some "reports/../out") empty_world).2
    !! "/work/out.html" = None.
Proof. vm_compute. repeat split; reflexivity. Qed.

(** The same file under another spelling of its name. *)
Example plot_flow_dotted_name :
  w_fs (plot_flow pyvis_env diamond (Some "./out") empty_world).2 !! "/work/out.html" =
    Some (File "<!doctype html><html><body>net</body></html>") ∧
  abspath empty_world "lib/../x//y/./z.html" = "/work/x/y/z.html".
Proof. vm_compute. split; reflexivity. Qed.

(** With the standard output closed the page is written, and the call
    raises on the notice: nothing is cleaned up. *)
Example plot_closed_stdout :
  (plot pyvis_env diamond "out" closed_stdout_world).1 =
    Raise {| exn_class := ValueError; exn_msg := "I/O operation on closed file." |} ∧
  w_fs (plot pyvis_env diamond "out" closed_stdout_world).2 !! "/work/out.html" =
    Some (File "<!doctype html><html><body>net</body></html>") ∧
  w_fs (plot pyvis_env diamond "out" closed_stdout_world).2 !! "/work/lib" = Some Dir.
Proof. vm_compute. repeat split; reflexivity. Qed.

(** A removal that fails is reported on the output and nothing else happens. *)
Example cleanup_locked_lib :
  _cleanup_pyvis_lib locked_lib_world =
    (Ok tt, log (EvPrint "Error cleaning up /work/lib: denied") locked_lib_world).
Proof. vm_compute. reflexivity. Qed.

(** A removal that fails half way: the file below [lib] is gone, the
    directory and the file next to it are still there, the call returns. *)
Example cleanup_partial_removal :
  let w := {| w_fs := w_fs stale_lib_world; w_cwd := "/work"; w_readonly := ∅;
              w_quota := None;
              w_rm_fault := Some ({| exn_class := OSError; exn_msg := "busy" |},
                                  ["/work/lib/old.js"; "/work/notes.txt"]);
              w_getcwd_fault := None; w_print_fault := λ _, None;
              w_trace := [] |} in
  (_cleanup_pyvis_lib w).1 = Ok tt ∧
  w_fs (_cleanup_pyvis_lib w).2 !! "/work/lib/old.js" = None ∧
  w_fs (_cleanup_pyvis_lib w).2 !! "/work/lib" = Some Dir ∧
  w_fs (_cleanup_pyvis_lib w).2 !! "/work/notes.txt" = Some (File "n") ∧
  w_trace (_cleanup_pyvis_lib w).2 = [EvPrint "Error cleaning up /work/lib: busy"].
Proof. vm_compute. repeat split; reflexivity. Qed.

(** A [lib] directory that was there before the call is removed with its
    content; the file next to it stays. *)
Example cleanup_stale_lib :
  w_fs (_cleanup_pyvis_lib stale_lib_world).2 !! "/work/lib" = None ∧
  w_fs (_cleanup_pyvis_lib stale_lib_world).2 !! "/work/lib/old.js" = None ∧
  w_fs (_cleanup_pyvis_lib stale_lib_world).2 !! "/work/notes.txt" = Some (File "n").
Proof. vm_compute. repeat split; reflexivity. Qed.

Example to_langchain_search_tool :
  BaseTool.to_langchain true search_tool = Ok BaseTool.PyNone ∧
  BaseTool.to_langchain false search_tool =
    Raise {| exn_class := ImportError; exn_msg := "langchain_core is not installed" |}.
Proof. split; reflexivity. Qed.

End Instances.

(** * Further properties of the code *)

(** ** [flow_visualizer.py] *)

Section PlotMore.
Import FlowPlot FlowPlotFacts Examples.

(** X2. Cleaning up twice is cleaning up once: after a cleanup whose
    removal did not fail, a second cleanup ends as the first one did and
    leaves the world, its output included, exactly as the first one left
    it; when [os.getcwd()] works it finds nothing to do and returns. *)
Theorem cleanup_pyvis_lib_twice (w : World) :
  w_rm_fault w = None →
  _cleanup_pyvis_lib (_cleanup_pyvis_lib w).2 = _cleanup_pyvis_lib w ∧
  (w_getcwd_fault w = None →
   _cleanup_pyvis_lib (_cleanup_pyvis_lib w).2 = (Ok tt, (_cleanup_pyvis_lib w).2)).
Proof.
  intros Hrm. destruct (w_getcwd_fault w) as [e|] eqn:Hcwd.
  { rewrite (cleanup_getcwd_fault w e Hcwd). simpl.
    by rewrite (cleanup_getcwd_fault w e Hcwd). }
  destruct (decide (w_fs w !! lib_dir w = Some Dir)) as [Hd | Hd].
  - rewrite (cleanup_dir w Hcwd Hd), Hrm. simpl.
    rewrite cleanup_not_dir; [done | done |].
    rewrite (lib_dir_same_cwd w) by done. simpl.
    rewrite remove_tree_lookup, decide_True by apply within_self. done.
  - rewrite (cleanup_not_dir w Hcwd Hd). simpl.
    by rewrite (cleanup_not_dir w Hcwd Hd).
Qed.

Lemma cleanup_pyvis_lib_twice_witness :
  _cleanup_pyvis_lib (_cleanup_pyvis_lib stale_lib_world).2 =
    _cleanup_pyvis_lib stale_lib_world ∧
  (w_getcwd_fault stale_lib_world = None →
   _cleanup_pyvis_lib (_cleanup_pyvis_lib stale_lib_world).2 =
     (Ok tt, (_cleanup_pyvis_lib stale_lib_world).2)).
Proof. apply (cleanup_pyvis_lib_twice stale_lib_world). reflexivity. Defined.

(** X3. An artifact that the caller places inside the [lib] directory of
    the working directory does not survive the call: when that directory
    is there once the page is generated and its removal goes through, a
    [plot] that returns normally has removed the file it has just written. *)
Theorem plot_artifact_inside_lib_is_removed (env : Env) (flow : FlowGraph)
    (filename html : string) (w w1 w' : World) :
  plot env flow filename w = (Ok tt, w') →
  plot_render env flow w = (Ok html, w1) →
  w_fs w1 !! lib_dir w = Some Dir →
  within (lib_dir w) (artifact_path w filename) →
  w_rm_fault w = None →
  w_fs w' !! artifact_path w filename = None ∧
  written (w_trace w') = written (w_trace w) ++ [(artifact_path w filename, html)].
Proof.
  intros Hrun Hrender Hlibdir Hin Hrm.
  destruct (plot_returns_written _ _ _ _ _ Hrun) as (html' & w1' & Hrender' & Hw).
  rewrite Hrender in Hrender'. inversion Hrender'; subst html' w1'.
  split; [|done].
  pose proof (plot_outcomes _ _ _ _ _ _ Hrun) as Hcases. cbv zeta in Hcases.
  destruct Hcases as [(e0 & He & _) | [(h & w2 & n & _ & _ & He & _) |
    (h & w2 & w3 & Hr & _ & Hfs3 & Hcwd & Hrm3 & _ & _ & _ & Htail)]];
    [done | done |].
  rewrite Hrender in Hr. inversion Hr; subst h w2.
  destruct Htail as [(e1 & He & _) | (_ & Hc)]; [done|].
  assert (Hne : artifact_path w filename ≠ lib_dir w).
  { intros Heq. rewrite plot_phases in Hrun. unfold mbind, M_bind, bind in Hrun.
    rewrite Hrender in Hrun.
    destruct (plot_render_world env flow w _ w1 Hrender) as [Hw1 _].
    destruct (plot_save_directory filename html w1) as [e He].
    - rewrite (artifact_path_same_cwd w) by (by rewrite Hw1). by rewrite Heq.
    - by rewrite He in Hrun. }
  apply cleanup_returns in Hc
    as [_ [[Hnd _] | [(_ & _ & ->) | (e0 & gone & _ & Hrm' & _)]]]; simpl in *.
  - exfalso. apply Hnd. rewrite (lib_dir_same_cwd w) by done.
    by rewrite Hfs3, lookup_insert_ne.
  - rewrite remove_tree_lookup, (lib_dir_same_cwd w) by done.
    by rewrite decide_True.
  - congruence.
Qed.

Lemma plot_artifact_inside_lib_is_removed_witness :
  w_fs (plot pyvis_env diamond "lib/plot" stale_lib_world).2
    !! artifact_path stale_lib_world "lib/plot" = None ∧
  written (w_trace (plot pyvis_env diamond "lib/plot" stale_lib_world).2) =
    written (w_trace stale_lib_world) ++
      [(artifact_path stale_lib_world "lib/plot",
        "<!doctype html><html><body>net</body></html>")].
Proof.
  apply (plot_artifact_inside_lib_is_removed pyvis_env diamond "lib/plot"
           "<!doctype html><html><body>net</body></html>" stale_lib_world
           (plot_render pyvis_env diamond stale_lib_world).2).
  - vm_compute. reflexivity.
  - vm_compute. reflexivity.
  - vm_compute. reflexivity.
  - right. vm_compute. reflexivity.
  - reflexivity.
Defined.

(** X4. Whatever its outcome, [plot] itself touches two places only: the
    output file and the [lib] directory.  A path that is neither, and that
    the libraries leave alone, holds after the call what it held before. *)
Theorem plot_touches_only_artifact_and_lib (env : Env) (flow : FlowGraph)
    (filename : string) (w w' : World) (r : result unit) (k : string) :
  plot env flow filename w = (r, w') →
  leaves_alone env k →
  k ≠ artifact_path w filename →
  ¬ within (lib_dir w) k →
  w_fs w' !! k = w_fs w !! k.
Proof.
  intros Hrun Halone Hk Hout.
  pose proof (plot_outcomes _ _ _ _ _ _ Hrun) as Hcases. cbv zeta in Hcases.
  destruct Hcases as [(e0 & He & Htr & Hfs) |
    [(html & w1 & n & Hr & Hfs1 & He & Hq & Hlt & Hfs & Htr) |
     (html & w1 & w3 & Hr & Hfs1 & Hfs3 & Hcwd & Hrm & Hgc & Hpr & Htr3 & Htail)]].
  - by apply Hfs.
  - rewrite Hfs, lookup_insert_ne by done. by apply Hfs1.
  - assert (H3 : w_fs w3 !! k = w_fs w !! k).
    { rewrite Hfs3, lookup_insert_ne by done. by apply Hfs1. }
    destruct Htail as [(e1 & He & Hf & ->) | (Hf & Hc)]; [done|].
    rewrite (cleanup_lookup_outside _ _ _ _ Hc); [done|].
    by rewrite (lib_dir_same_cwd w) by done.
Qed.

Lemma plot_touches_only_artifact_and_lib_witness :
  w_fs (plot pyvis_env diamond "./out" stale_lib_world).2 !! "/work/notes.txt" =
  w_fs stale_lib_world !! "/work/notes.txt".
Proof.
  apply (plot_touches_only_artifact_and_lib pyvis_env diamond "./out" stale_lib_world
           (plot pyvis_env diamond "./out" stale_lib_world).2
           (plot pyvis_env diamond "./out" stale_lib_world).1).
  - by destruct (plot pyvis_env diamond "./out" stale_lib_world).
  - apply pyvis_env_leaves_alone; discriminate.
  - vm_compute. discriminate.
  - vm_compute. intros [H | H]; discriminate.
Defined.

(** X5. The line [Plot saved as <filename>.html] is printed once by every
    call that returns normally, right after the complete page has been
    written and before the cleanup; a failing removal adds its own line
    after it.  A call that raises has printed nothing, unless it is the
    cleanup step that raised: then the page is written and the line is
    printed. *)
Theorem plot_saved_message (env : Env) (flow : FlowGraph) (filename : string)
    (w w' : World) (r : result unit) :
  plot env flow filename w = (r, w') →
  let a := artifact_path w filename in
  let saved := EvPrint ("Plot saved as " +:+ filename +:+ ".html") in
  match r with
  | Ok _ =>
      ∃ html tail,
        w_trace w' = w_trace w ++ [EvOpen a; EvWrite a html; saved] ++ tail ∧
        (tail = [] ∨ tail = [EvRmtree (lib_dir w)] ∨
         ∃ e gone, w_rm_fault w = Some (e, gone) ∧
           tail = [EvPrint ("Error cleaning up " +:+ path_join (w_cwd w) "lib"
                            +:+ ": " +:+ exn_msg e)])
  | Raise e =>
      (∀ text, EvPrint text ∈ w_trace w' → EvPrint text ∈ w_trace w) ∨
      ∃ html,
        w_trace w' = w_trace w ++ [EvOpen a; EvWrite a html; saved] ∧
        (w_getcwd_fault w = Some e ∨
         ∃ e0 gone, w_rm_fault w = Some (e0, gone) ∧
           w_print_fault w ("Error cleaning up " +:+ path_join (w_cwd w) "lib"
                            +:+ ": " +:+ exn_msg e0) = Some e)
  end.
Proof.
  intros Hrun a saved. subst a saved.
  pose proof (plot_outcomes _ _ _ _ _ _ Hrun) as Hcases. cbv zeta in Hcases.
  destruct Hcases as [(e0 & He & Htr & Hfs) |
    [(html & w1 & n & Hr & Hfs1 & He & Hq & Hlt & Hfs & Htr) |
     (html & w1 & w3 & Hr & Hfs1 & Hfs3 & Hcwd & Hrm & Hgc & Hpr & Htr3 & Htail)]].
  - subst r. left. by rewrite Htr.
  - subst r. left. rewrite Htr. intros text Hin.
    apply elem_of_app in Hin as [Hin | Hin]; [done|].
    apply list_elem_of_singleton in Hin. done.
  - destruct Htail as [(e1 & He & Hf & ->) | (Hf & Hc)].
    + subst r. left. rewrite Htr3. intros text Hin.
      apply elem_of_app in Hin as [Hin | Hin]; [done|].
      apply elem_of_cons in Hin as [Hin | Hin]; [done|].
      apply list_elem_of_singleton in Hin. done.
    + destruct r as [[]|e].
      * exists html.
        apply cleanup_returns in Hc
          as [_ [[_ ->] | [(_ & _ & ->) | (e0 & gone & _ & Hrm' & ->)]]];
          simpl in *; rewrite Htr3, <- !app_assoc; simpl.
        -- exists []. split; [done | by left].
        -- eexists. split; [done|]. right. left.
           by rewrite (lib_dir_same_cwd w) by done.
        -- eexists. split; [done|]. right. right. exists e0, gone.
           split; [congruence | by rewrite Hcwd].
      * right. exists html.
        apply cleanup_raises in Hc
          as [[Hg ->] | (e0 & gone & _ & _ & Hrm' & Hp & ->)]; simpl in *;
          (split; [by rewrite Htr3, <- !app_assoc|]).
        -- left. congruence.
        -- right. exists e0, gone. split; [congruence|].
           rewrite <- Hcwd, <- Hpr. done.
Qed.

Lemma plot_saved_message_witness :
  ∃ html tail,
    w_trace (plot pyvis_env diamond "out" locked_lib_world).2 =
      w_trace locked_lib_world ++
        [EvOpen (artifact_path locked_lib_world "out");
         EvWrite (artifact_path locked_lib_world "out") html;
         EvPrint ("Plot saved as " +:+ "out" +:+ ".html")] ++ tail ∧
    (tail = [] ∨ tail = [EvRmtree (lib_dir locked_lib_world)] ∨
     ∃ e gone, w_rm_fault locked_lib_world = Some (e, gone) ∧
       tail = [EvPrint ("Error cleaning up " +:+ path_join (w_cwd locked_lib_world) "lib"
                        +:+ ": " +:+ exn_msg e)]).
Proof.
  apply (plot_saved_message pyvis_env diamond "out" locked_lib_world
           (plot pyvis_env diamond "out" locked_lib_world).2 (Ok tt)).
  vm_compute. reflexivity.
Defined.

(** With the standard output closed the call of the example raises on its
    first line: the file is opened and written, nothing is printed. *)
Example plot_closed_stdout_prints_nothing :
  w_trace (plot pyvis_env diamond "out" closed_stdout_world).2 =
    [EvOpen "/work/out.html";
     EvWrite "/work/out.html" "<!doctype html><html><body>net</body></html>"].
Proof. vm_compute. reflexivity. Qed.

End PlotMore.

(** ** [cli/install_crew.py] *)

Section InstallCrewFacts.
Import InstallCrew.

Lemma append_cons a (s t : string) : String a s +:+ t = String a (s +:+ t).
Proof. reflexivity. Qed.

Lemma append_assoc (s t u : string) : (s +:+ t) +:+ u = s +:+ t +:+ u.
Proof. induction s as [|a s IH]; [done|]. by rewrite !append_cons, IH. Qed.

Lemma append_nil_r (s : string) : s +:+ "" = s.
Proof. induction s as [|a s IH]; [done|]. by rewrite append_cons, IH. Qed.

Lemma list_ascii_of_append (s t : string) :
  list_ascii_of_string (s +:+ t) = list_ascii_of_string s ++ list_ascii_of_string t.
Proof. induction s as [|a s IH]; [done|]. rewrite append_cons. simpl. by rewrite IH. Qed.

(** What [install_crew] leaves on the standard error when the stream takes
    it: what the child wrote there, then its own lines. *)
Lemma install_crew_err_text (signal_repr : Z → option string)
    (child : Child) (c : Console) :
  err_fault c = None →
  err_text (install_crew signal_repr child c).2 =
    (err_text c +:+ child_err child) +:+
      match child with
      | Exited 0 _ _ => ""
      | Exited returncode _ _ =>
          ("An error occurred while running the crew: "
           +:+ CalledProcessError_str signal_repr
                 {| cpe_returncode := returncode; cpe_cmd := ["uv"; "sync"];
                    cpe_output := None |})
          +:+ String newline (String newline "")
      | NotStarted e =>
          ("An unexpected error occurred: " +:+ exn_msg e) +:+ String newline ""
      | Interrupted _ _ => ""
      end.
Proof.
  intros Hf.
  destruct child as [returncode out err | e | out err];
    unfold install_crew, subprocess_run, child_writes, echo_err.
  - destruct returncode as [|p|p]; simpl; rewrite ?Hf; simpl.
    + by rewrite append_nil_r.
    + by rewrite !append_assoc.
    + by rewrite !append_assoc.
  - simpl. rewrite Hf. simpl. rewrite !append_nil_r. by rewrite !append_assoc.
  - simpl. by rewrite append_nil_r.
Qed.

(** X6. [install_crew] itself writes nothing to the standard output: what
    is there after the call is what the child wrote.  On the standard error
    it adds, after what the child wrote there, no line when the child exits
    with 0, one line when it cannot be started, and two lines when it ends
    with another return code: the message with the command and, since the
    output is not captured, an empty line.  It returns normally whatever
    becomes of the child, with two exceptions: the wait is interrupted from
    the keyboard (a [KeyboardInterrupt] is not caught), or there is
    something to report and the standard error does not take it; then the
    exception of the write reaches the caller and nothing is reported. *)
Theorem install_crew_reports_on_stderr_only (signal_repr : Z → option string)
    (child : Child) (c : Console) :
  out_text (install_crew signal_repr child c).2 = out_text c +:+ child_out child ∧
  err_text (install_crew signal_repr child c).2 =
    (err_text c +:+ child_err child) +:+
      match err_fault c, child with
      | Some _, _ => ""
      | None, Exited 0 _ _ => ""
      | None, Exited returncode _ _ =>
          ("An error occurred while running the crew: "
           +:+ CalledProcessError_str signal_repr
                 {| cpe_returncode := returncode; cpe_cmd := ["uv"; "sync"];
                    cpe_output := None |})
          +:+ String newline (String newline "")
      | None, NotStarted e =>
          ("An unexpected error occurred: " +:+ exn_msg e) +:+ String newline ""
      | None, Interrupted _ _ => ""
      end ∧
  (install_crew signal_repr child c).1 =
    match child, err_fault c with
    | Interrupted _ _, _ => KeyboardInterrupt
    | Exited 0 _ _, _ => ReturnsNone
    | _, Some x => Raises x
    | _, None => ReturnsNone
    end.
Proof.
  destruct (err_fault c) as [x|] eqn:Hf.
  - destruct child as [[|p|p] out err | e | out err];
      unfold install_crew, subprocess_run, child_writes, echo_err; simpl;
      rewrite ?Hf; simpl; rewrite ?append_nil_r; done.
  - split; [|split; [by apply install_crew_err_text|]].
    + destruct child as [[|p|p] out err | e | out err];
        unfold install_crew, subprocess_run, child_writes, echo_err; simpl;
        rewrite ?Hf; simpl; rewrite ?append_nil_r; done.
    + destruct child as [[|p|p] out err | e | out err];
        unfold install_crew, subprocess_run, child_writes, echo_err; simpl;
        rewrite ?Hf; simpl; done.
Qed.

(** The decimal digits of a number hold no blank. *)
Lemma pretty_N_go_no_blank (x : N) : ∀ s,
  " "%char ∉ list_ascii_of_string s →
  " "%char ∉ list_ascii_of_string (pretty_N_go x s).
Proof.
  induction (N.lt_wf_0 x) as [x _ IH]; intros s Hs.
  assert (x = 0 ∨ 0 < x)%N as [->|Hpos] by lia.
  - by rewrite pretty_N_go_0.
  - rewrite pretty_N_go_step by done. apply IH.
    { by apply N.div_lt. }
    simpl. intros Hin. apply elem_of_cons in Hin as [Heq | Hin]; [|done].
    revert Heq. unfold pretty_N_char. by repeat case_match.
Qed.

Lemma pretty_pos_no_blank (p : positive) :
  " "%char ∉ list_ascii_of_string (pretty (Z.pos p)).
Proof.
  unfold pretty, pretty_Z, pretty, pretty_positive, pretty, pretty_N.
  rewrite decide_False by done. apply pretty_N_go_no_blank. simpl. apply not_elem_of_nil.
Qed.

(** Two texts that end in a blank and a word each, the same way on: the
    words are the same. *)
Lemma last_word_eq (A B d1 d2 : list ascii) :
  " "%char ∉ d1 → " "%char ∉ d2 →
  A ++ " "%char :: d1 = B ++ " "%char :: d2 → d1 = d2.
Proof.
  intros H1 H2. revert B. induction A as [|a A IH]; intros [|b B] Heq; simpl in Heq.
  - by injection Heq.
  - injection Heq as Hb Hd. exfalso. apply H1. rewrite Hd.
    apply elem_of_app. right. by left.
  - injection Heq as Ha Hd. exfalso. apply H2. rewrite <- Hd.
    apply elem_of_app. right. by left.
  - injection Heq as Ha Hd. by eapply IH.
Qed.

(** X7. The message that a failed [uv sync] leaves on the standard error
    tells the return codes apart: on a standard error that takes the
    message, two runs that end with different positive return codes never
    leave the same text there, whatever the children themselves have
    written. *)
Theorem install_crew_message_tells_return_code (signal_repr : Z → option string)
    (code1 code2 : Z) (out1 out2 err1 err2 : string) (c : Console) :
  err_fault c = None →
  (0 < code1)%Z → (0 < code2)%Z → code1 ≠ code2 →
  err_text (install_crew signal_repr (Exited code1 out1 err1) c).2 ≠
  err_text (install_crew signal_repr (Exited code2 out2 err2) c).2.
Proof.
  intros Hf H1 H2 Hne Heq.
  rewrite !install_crew_err_text in Heq by done.
  destruct code1 as [|p1|p1]; [lia | | lia].
  destruct code2 as [|p2|p2]; [lia | | lia].
  unfold CalledProcessError_str in Heq. simpl cpe_returncode in Heq.
  simpl cpe_cmd in Heq.
  change (Z.pos p1 <? 0)%Z with false in Heq.
  change (Z.pos p2 <? 0)%Z with false in Heq. cbv iota in Heq.
  set (head := "An error occurred while running the crew: Command '"
               +:+ repr_words ["uv"; "sync"] +:+ "' returned non-zero exit status") in *.
  set (tail := "." +:+ String newline (String newline "")) in *.
  assert (Hshape : ∀ E (p : positive),
            E +:+ ("An error occurred while running the crew: "
                   +:+ "Command '" +:+ repr_words ["uv"; "sync"]
                   +:+ "' returned non-zero exit status " +:+ pretty (Z.pos p) +:+ ".")
              +:+ String newline (String newline "")
            = (E +:+ head) +:+ " " +:+ pretty (Z.pos p) +:+ tail).
  { intros E p. unfold head, tail. vm_compute repr_words.
    rewrite !append_assoc. reflexivity. }
  rewrite !Hshape in Heq. clear Hshape.
  apply (f_equal list_ascii_of_string) in Heq.
  rewrite !list_ascii_of_append in Heq.
  rewrite !(app_assoc _ _ (list_ascii_of_string tail)) in Heq.
  apply app_inv_tail in Heq. simpl in Heq.
  apply last_word_eq in Heq; [|apply pretty_pos_no_blank..].
  apply (f_equal string_of_list_ascii) in Heq.
  rewrite !string_of_list_ascii_of_string in Heq.
  apply (inj pretty) in Heq. done.
Qed.

Lemma install_crew_message_tells_return_code_witness :
  err_text (install_crew (λ _, None) (Exited 1 "" "error: no lockfile") blank).2 ≠
  err_text (install_crew (λ _, None) (Exited 2 "Resolved" "") blank).2.
Proof.
  apply (install_crew_message_tells_return_code (λ _, None) 1 2); [reflexivity|lia..].
Defined.

(** The texts of the example. *)
Example install_crew_failed_sync :
  install_crew (λ _, None) (Exited 1 "Resolved 3 packages" "error: no lockfile") blank =
  (ReturnsNone,
   {| out_text := "Resolved 3 packages";
      err_text := "error: no lockfile" +:+
        "An error occurred while running the crew: Command '['uv', 'sync']' returned non-zero exit status 1."
        +:+ String newline (String newline "");
      err_fault := None |}).
Proof. vm_compute. reflexivity. Qed.

End InstallCrewFacts.

(** ** [memory/long_term/long_term_memory.py] *)

Section LongTermMemoryFacts.
Import LongTermMemory.

Lemma metadata_or_new_lookup item k :
  (metadata_or_new item).1 !! k = default ∅ (metadata item) !! k.
Proof.
  unfold metadata_or_new. destruct (metadata item) as [m|]; simpl; [|done].
  destruct (decide (m = ∅)) as [-> | ?]; done.
Qed.

(** X8. Whenever [save] passes an item on to the storage, the metadata it
    passes carries the item's agent and expected output under the keys
    [agent] and [expected_output], overwriting what the item's own metadata
    had there, and agrees with the item's metadata on every other key; the
    score of the keyword form is the metadata's [quality], or 0 when the
    metadata has none. *)
Theorem save_item_metadata (storage : Storage) (item : LongTermMemoryItem)
    (metadata_arg : option (gmap string PyVal)) (agent_arg : option string)
    (call : Call) :
  (save storage (AnItem item) metadata_arg agent_arg).2 = Returns call →
  ∃ md, call_metadata call = Some md ∧
        md !! "agent" = Some (VStr (agent item)) ∧
        md !! "expected_output" = Some (VStr (expected_output item)) ∧
        (∀ k, k ≠ "agent" → k ≠ "expected_output" →
              md !! k = default ∅ (metadata item) !! k) ∧
        (call = SavePositional (task item) md ∨
         call = SaveKeywords (task item)
                  (default (VInt 0) (default ∅ (metadata item) !! "quality"))
                  md (datetime item)).
Proof.
  unfold save. destruct (metadata_or_new item) as [m shared] eqn:Hm.
  pose proof (metadata_or_new_lookup item) as Hlook. rewrite Hm in Hlook.
  simpl in Hlook.
  set (md := update_agent_output (agent item) (expected_output item) m).
  assert (Hmd : md !! "agent" = Some (VStr (agent item)) ∧
                md !! "expected_output" = Some (VStr (expected_output item)) ∧
                (∀ k, k ≠ "agent" → k ≠ "expected_output" →
                      md !! k = default ∅ (metadata item) !! k)).
  { unfold md, update_agent_output. split; [|split].
    - rewrite lookup_insert_ne by done. apply lookup_insert_eq.
    - apply lookup_insert_eq.
    - intros k Ha He. rewrite !lookup_insert_ne by done. apply Hlook. }
  destruct Hmd as (Ha & He & Hrest).
  assert (Hq : md !! "quality" = default ∅ (metadata item) !! "quality")
    by (by apply Hrest).
  destruct (takes_task_description storage).
  - simpl. intros H. inversion H; subst. exists md. simpl.
    split; [done|]. split; [done|]. split; [done|]. split; [done|].
    right. by rewrite Hq.
  - destruct (save_attr storage); simpl; intros H; inversion H; subst;
      exists md; simpl; (split; [done|]); (split; [done|]); (split; [done|]);
      (split; [done|]); by left.
Qed.

Lemma save_item_metadata_witness :
  ∃ md, call_metadata
          (SaveKeywords "write a report" (VInt 0)
             {[ "agent" := VStr "writer"; "suggestions" := VStr "be brief";
                "expected_output" := VStr "a report" ]} "1700000000") = Some md ∧
        md !! "agent" = Some (VStr (agent rated_item)) ∧
        md !! "expected_output" = Some (VStr (expected_output rated_item)) ∧
        (∀ k, k ≠ "agent" → k ≠ "expected_output" →
              md !! k = default ∅ (metadata rated_item) !! k) ∧
        (SaveKeywords "write a report" (VInt 0)
           {[ "agent" := VStr "writer"; "suggestions" := VStr "be brief";
              "expected_output" := VStr "a report" ]} "1700000000"
         = SavePositional (task rated_item) md ∨
         SaveKeywords "write a report" (VInt 0)
           {[ "agent" := VStr "writer"; "suggestions" := VStr "be brief";
              "expected_output" := VStr "a report" ]} "1700000000"
         = SaveKeywords (task rated_item)
             (default (VInt 0) (default ∅ (metadata rated_item) !! "quality"))
             md (datetime rated_item)).
Proof.
  apply (save_item_metadata plain_storage rated_item None None).
  vm_compute. reflexivity.
Defined.

(** X9. [save] changes the item it is given: when the item's metadata is a
    dictionary that is not empty, that very dictionary is updated, so after
    the call the item carries its agent and expected output in its own
    metadata, also when the storage could not be called; an item whose
    metadata is [None] or empty is left exactly as it was. *)
Theorem save_updates_item_in_place (storage : Storage) (item : LongTermMemoryItem)
    (metadata_arg : option (gmap string PyVal)) (agent_arg : option string) :
  (metadata item = None ∨ metadata item = Some ∅ →
   (save storage (AnItem item) metadata_arg agent_arg).1 = AnItem item) ∧
  (∀ m, metadata item = Some m → m ≠ ∅ →
   (save storage (AnItem item) metadata_arg agent_arg).1 =
     AnItem (with_metadata
               (update_agent_output (agent item) (expected_output item) m) item) ∧
   ∀ call, (save storage (AnItem item) metadata_arg agent_arg).2 = Returns call →
           call_metadata call =
             Some (update_agent_output (agent item) (expected_output item) m)).
Proof.
  split.
  - intros Hm. unfold save, metadata_or_new.
    destruct Hm as [-> | ->]; [|rewrite decide_True by done];
      destruct (takes_task_description storage); try done;
      by destruct (save_attr storage).
  - intros m Hm Hne. unfold save, metadata_or_new. rewrite Hm.
    rewrite decide_False by done.
    destruct (takes_task_description storage); simpl.
    + split; [done|]. intros call H. by inversion H.
    + destruct (save_attr storage); simpl; (split; [done|]);
        intros call H; by inversion H.
Qed.

End LongTermMemoryFacts.

(** ** [tools/base_tool.py] *)

Section ToolsFacts.
Import Tools.

Lemma length_append (s t : string) :
  String.length (s +:+ t) = String.length s + String.length t.
Proof. induction s as [|a s IH]; [done|]. rewrite append_cons. simpl. by rewrite IH. Qed.

Lemma prefix_append (s t : string) : String.prefix s (s +:+ t) = true.
Proof.
  induction s as [|a s IH]; [by destruct t|]. rewrite append_cons. simpl.
  destruct (ascii_dec a a); done.
Qed.

Section WithBuiltins.
Variable py_repr : string → string.
Variable py_split : string → list string.
Variable py_title : string → string.
Variable pydantic_model : string → list (string * Annotation) → outcome ModelClass.
Variable create_model : string → list (string * FieldInfo) → outcome ModelClass.

(** The lines put in front of the old description. *)
Lemma description_text_header tool_name schema old :
  description_text py_repr tool_name schema old =
    ("Tool Name: " +:+ tool_name +:+ String newline "Tool Arguments: "
     +:+ args_text py_repr schema +:+ String newline "Tool Description: ") +:+ old ∧
  0 < String.length ("Tool Name: " +:+ tool_name +:+ String newline "Tool Arguments: "
     +:+ args_text py_repr schema +:+ String newline "Tool Description: ").
Proof.
  split; [|rewrite append_cons; simpl; lia].
  unfold description_text. by rewrite !append_assoc.
Qed.

(** X10. [_generate_description] wraps: the new description is the old one
    under a header that names the tool and lists its arguments; name,
    schema, function and the flag [description_updated] stay as they are.
    The flag is not consulted either, so a second call wraps once more and
    never gives back what the first call gave.  On a tool whose schema is
    [None] the call raises an [AttributeError]. *)
Theorem generate_description_wraps (self : Tool) :
  match args_schema self with
  | None =>
      _generate_description py_repr self =
        Throws (no_attribute "NoneType" "model_fields")
  | Some schema =>
      ∃ header self',
        _generate_description py_repr self = Returns self' ∧
        description self' = header +:+ description self ∧
        String.prefix ("Tool Name: " +:+ name self) header = true ∧
        name self' = name self ∧ args_schema self' = args_schema self ∧
        func self' = func self ∧
        description_updated self' = description_updated self ∧
        String.length (description self) < String.length (description self') ∧
        _generate_description py_repr self' ≠ Returns self'
  end.
Proof.
  unfold _generate_description. destruct (args_schema self) as [schema|] eqn:Hs; [|done].
  destruct (description_text_header (name self) schema (description self)) as [Hd Hlen].
  set (D := description_text py_repr (name self) schema (description self)) in *.
  eexists _, (with_description D self). split; [done|].
  change (description (with_description D self)) with D.
  change (name (with_description D self)) with (name self).
  change (args_schema (with_description D self)) with (args_schema self).
  split; [exact Hd|].
  split; [rewrite <- (append_assoc "Tool Name: " (name self)); apply prefix_append|].
  split; [done|]. split; [done|]. split; [done|]. split; [done|].
  split; [rewrite Hd, length_append; lia|].
  rewrite Hs. intros Heq.
  apply (f_equal (λ o, match o with Returns t => description t | Throws _ => "" end))
    in Heq.
  change (description_text py_repr (name self) schema D = D) in Heq.
  destruct (description_text_header (name self) schema D) as [Hd' _].
  rewrite Hd' in Heq. apply (f_equal String.length) in Heq.
  rewrite length_append in Heq. lia.
Qed.

(** X11. What the decorator [tool] does with its arguments.  Anything but
    one callable or one string is a [ValueError]; one string gives a
    decorator for that name.  Of one callable the name is read first (a
    callable without one is an [AttributeError]), then the docstring is
    checked ([ValueError] when it is [None]), then the annotations
    ([AttributeError] when there are none to read, [ValueError] when they
    are [None]), and only then is pydantic asked for the schema class, of
    the annotations without that of the result; what pydantic raises
    reaches the caller.  The tool made has the name of the callable, holds
    the callable and the schema, and its description ends with the
    docstring. *)
Theorem tool_decorator_outcomes (args : list Arg) :
  match tool py_repr py_split py_title pydantic_model args with
  | Returns (Decorator tool_name) => args = [AStr tool_name]
  | Returns (MadeTool t) =>
      ∃ f n doc annotations schema header,
        args = [ACallable f] ∧ __name__ f = Some n ∧ __doc__ f = Some doc ∧
        __annotations__ f = Some (Some annotations) ∧
        pydantic_model (py_title (String.concat "" (py_split n)))
          (without_return annotations) = Returns schema ∧
        ("return" ∉ (without_return annotations).*1) ∧
        name t = n ∧ func t = f ∧ args_schema t = Some schema ∧
        description t = header +:+ doc
  | Throws e =>
      (e = Builtin {| exn_class := ValueError; exn_msg := "Invalid arguments" |} ∧
       ∀ a, args = [a] → a = AOther) ∨
      ∃ f, args = [ACallable f] ∧
        ((__name__ f = None ∧ e = no_attribute (fn_type f) "__name__") ∨
         ∃ n, __name__ f = Some n ∧
           ((__doc__ f = None ∧
             e = Builtin {| exn_class := ValueError;
                            exn_msg := "Function must have a docstring" |}) ∨
            (__doc__ f ≠ None ∧ __annotations__ f = None ∧
             e = no_attribute (fn_type f) "__annotations__") ∨
            (__doc__ f ≠ None ∧ __annotations__ f = Some None ∧
             e = Builtin {| exn_class := ValueError;
                            exn_msg := "Function must have type annotations" |}) ∨
            (∃ annotations,
               __doc__ f ≠ None ∧ __annotations__ f = Some (Some annotations) ∧
               pydantic_model (py_title (String.concat "" (py_split n)))
                 (without_return annotations) = Throws e)))
  end.
Proof.
  destruct args as [|[f|s|] [|b rest]]; simpl; try (left; split; [done|]; by intros a [=]).
  - destruct (__name__ f) as [n|] eqn:Hn; [|right; exists f; split; [done|]; by left].
    unfold _make_tool.
    destruct (__doc__ f) as [doc|] eqn:Hdoc;
      [|right; exists f; split; [done|]; right; exists n; split; [done|]; by left].
    destruct (__annotations__ f) as [[annotations|]|] eqn:Hann; simpl.
    + destruct (pydantic_model _ _) as [schema|e] eqn:Hp; simpl.
      * exists f, n, doc, annotations, schema.
        destruct (description_text_header n schema doc) as [Hd _].
        eexists. split; [done|]. split; [done|]. split; [done|]. split; [done|].
        split; [done|]. split; [|split; [done|split; [done|split; [done|exact Hd]]]].
        unfold without_return. intros Hin.
        apply list_elem_of_fmap in Hin as ([k a] & Hk & Hin).
        apply list_elem_of_filter in Hin as [Hne _]. simpl in *. by subst.
      * right. exists f. split; [done|]. right. exists n. split; [done|].
        right. right. right. exists annotations. by rewrite Hdoc.
    + right. exists f. split; [done|]. right. exists n. split; [done|].
      right. right. left. by rewrite Hdoc.
    + right. exists f. split; [done|]. right. exists n. split; [done|].
      right. left. by rewrite Hdoc.
  - done.
Qed.

Lemma parameter_field_names (ps : list (string * option Annotation)) :
  (map parameter_field (filter (λ p, p.1 ≠ "self") ps)).*1 =
    filter (λ k, k ≠ "self") (ps.*1).
Proof.
  induction ps as [|[k a] l IH]; [done|].
  rewrite fmap_cons, !filter_cons. cbn [fst].
  destruct (decide (k ≠ "self")); [|done].
  rewrite map_cons, fmap_cons. cbn [fst parameter_field]. by rewrite IH.
Qed.

(** X13. [BaseTool.from_langchain] prints its line first; when the line
    cannot be printed nothing else happens.  Without a callable [func] it
    raises a [ValueError].  With a schema of its own the object needs no
    name, the tool is called [Unnamed Tool], and the signature of [func] is
    not looked at.  Without a schema the signature is read first and its
    failure reaches the caller; then the name is read directly, so an
    object without a name gives an [AttributeError] and never an unnamed
    tool; with a name the schema is made of the parameters: one field with
    an empty description per parameter, in order, [self] left out, and no
    call of [create_model] with fields when there are none. *)
Theorem BaseTool_from_langchain_outcomes {T : Type} (cls : ToolKwargs → outcome T)
    (stdout_fault : option PyError) (tool : PyObject) :
  match stdout_fault with
  | Some e => BaseTool_from_langchain create_model cls stdout_fault tool = ([], Throws e)
  | None =>
    (BaseTool_from_langchain create_model cls None tool).1 =
      ["CREATING TOOL FROM LANGCHAIN"] ∧
    match attr_func tool with
    | Some (IsCallable f) =>
        match args_schema_or_None tool with
        | Some schema =>
            (BaseTool_from_langchain create_model cls None tool).2 =
              cls {| kw_name := default "Unnamed Tool" (attr_name tool);
                     kw_description := default "" (attr_description tool);
                     kw_func := f; kw_args_schema := schema |}
        | None =>
            match signature f with
            | Throws e =>
                (BaseTool_from_langchain create_model cls None tool).2 = Throws e
            | Returns parameters =>
                match attr_name tool with
                | None =>
                    (BaseTool_from_langchain create_model cls None tool).2 =
                      Throws (no_attribute (type_name tool) "name")
                | Some n =>
                    ∃ fields,
                      (fields.*1 = filter (λ k, k ≠ "self") (parameters.*1)) ∧
                      ("self" ∉ fields.*1) ∧
                      (∀ k field, (k, field) ∈ fields →
                                  field_description field = Some "") ∧
                      (BaseTool_from_langchain create_model cls None tool).2 =
                        and_then
                          (match fields with
                           | [] => Returns {| model_name := n +:+ "Input";
                                              model_fields := [] |}
                           | _ :: _ => create_model (n +:+ "Input") fields
                           end)
                          (λ schema,
                             cls {| kw_name := n;
                                    kw_description := default "" (attr_description tool);
                                    kw_func := f; kw_args_schema := schema |})
                end
            end
        end
    | _ =>
        (BaseTool_from_langchain create_model cls None tool).2 =
          value_error "The provided tool must have a callable 'func' attribute."
    end
  end.
Proof.
  destruct stdout_fault as [e|]; [done|]. split; [done|].
  unfold BaseTool_from_langchain. cbn [snd].
  destruct (attr_func tool) as [[f|]|]; [|done|done].
  destruct (args_schema_or_None tool) as [schema|]; [done|].
  destruct (signature f) as [parameters|e]; [|done]. cbn [and_then].
  destruct (attr_name tool) as [n|]; [|done]. cbn [getattr and_then default].
  eexists. split; [apply parameter_field_names|].
  split; [|split; [|done]].
  - rewrite parameter_field_names. intros Hin.
    by apply list_elem_of_filter in Hin as [Hne _].
  - intros k field Hin. apply list_elem_of_In, in_map_iff in Hin as ([k' a] & Heq & _).
    by inversion Heq.
Qed.

(** X14. The round trip of a [Tool] through LangChain fails: what
    [Tool.to_langchain] hands back is [None], and [Tool.from_langchain] of
    that raises an [AttributeError], for every tool. *)
Theorem Tool_round_trip_raises (function_of : BaseTool.Callable → Function)
    (run_of : BaseTool.LC_Tool → Function) (model_of : BaseTool.Schema → ModelClass)
    (self : BaseTool.Tool) :
  ∃ v, BaseTool.to_langchain true self = Ok v ∧
       Tool_from_langchain py_repr (as_object function_of run_of model_of v) =
         Throws (no_attribute "NoneType" "name").
Proof. exists BaseTool.PyNone. split; reflexivity. Qed.

End WithBuiltins.

Section StructuredFacts.
Variable S : Type.
Variable init : string → string → option ModelClass → Tool → bool → outcome S.

(** X16. The module-level [to_langchain] makes no LangChain tools: when it
    returns, its list has one structured tool per element, the elements
    that were structured tools already are passed through in place, and
    applying it to its own result changes nothing.  It raises exactly when
    the conversion of one of the [BaseTool] elements raises. *)
Theorem to_langchain_list_structured (tools : list (ToolLike S)) :
  match to_langchain init tools with
  | Returns ss =>
      length ss = length tools ∧
      (∀ i s, tools !! i = Some (IsStructured s) → ss !! i = Some s) ∧
      (∀ i b, tools !! i = Some (IsBaseTool b) →
              ∃ s, (to_structured_tool init b).2 = Returns s ∧ ss !! i = Some s) ∧
      to_langchain init (IsStructured <$> ss) = Returns ss
  | Throws e =>
      ∃ i b, tools !! i = Some (IsBaseTool b) ∧
             (to_structured_tool init b).2 = Throws e
  end.
Proof.
  induction tools as [|t rest IH]; [done|].
  cbn [to_langchain]. destruct t as [b | s].
  - destruct ((to_structured_tool init b).2) as [s|e] eqn:Hb; cbn [and_then].
    + destruct (to_langchain init rest) as [ss|e]; cbn [and_then].
      * destruct IH as (Hlen & Hkeep & Hconv & Hidem).
        split; [simpl; by rewrite Hlen|]. split; [|split].
        -- intros [|i] s' Hi; [done|]. by apply Hkeep.
        -- intros [|i] b' Hi; [|by apply Hconv].
           inversion Hi; subst. exists s. done.
        -- rewrite fmap_cons. cbn [to_langchain and_then]. by rewrite Hidem.
      * destruct IH as (i & b' & Hi & Hb'). exists (Datatypes.S i), b'. done.
    + exists 0, b. done.
  - cbn [and_then]. destruct (to_langchain init rest) as [ss|e]; cbn [and_then].
    + destruct IH as (Hlen & Hkeep & Hconv & Hidem).
      split; [simpl; by rewrite Hlen|]. split; [|split].
      * intros [|i] s' Hi; [by inversion Hi | by apply Hkeep].
      * intros [|i] b' Hi; [done | by apply Hconv].
      * rewrite fmap_cons. cbn [to_langchain and_then]. by rewrite Hidem.
    + destruct IH as (i & b' & Hi & Hb'). exists (Datatypes.S i), b'. done.
Qed.

End StructuredFacts.

(** The decorator on the function of the example, with a pydantic that
    makes a field of every annotation: the fields and the description. *)
Example search_tool_made :
  match tool (λ s, "'" +:+ s +:+ "'") (λ s, [s]) (λ _, "Search") plain_model
          [ACallable search_function] with
  | Returns (MadeTool t) =>
      (model_fields <$> args_schema t) =
        Some [("query", annotated_field (AClass "str"));
              ("limit", annotated_field (AClass "int"))] ∧
      description t =
        "Tool Name: search" +:+ String newline
        ("Tool Arguments: {'query': {'description': None, 'type': 'str'}, "
         +:+ "'limit': {'description': None, 'type': 'int'}}") +:+ String newline
        "Tool Description: Search the web."
  | _ => False
  end.
Proof. vm_compute. split; reflexivity. Qed.

(** A callable without a name, and a function without a docstring. *)
Example tool_on_partial_and_method :
  tool id (λ s, [s]) id plain_model [ACallable partial_function] =
    Throws (AttributeError "'functools.partial' object has no attribute '__name__'") ∧
  tool id (λ s, [s]) id plain_model [ACallable method_function] =
    value_error "Function must have a docstring".
Proof. split; reflexivity. Qed.

(** A method handed over as [func], by an object without a schema: with a
    name the schema has the one field [text]; without a name the call
    raises. *)
Example from_langchain_method :
  (BaseTool_from_langchain (λ n fs, Returns {| model_name := n; model_fields := fs |})
     (λ kw, Returns kw) None
     {| type_name := "Wrapper"; attr_name := Some "run_tool";
        attr_description := None; attr_func := Some (IsCallable method_function);
        attr__run := None; attr_args_schema := None |}).2 =
    Returns {| kw_name := "run_tool"; kw_description := "";
               kw_func := method_function;
               kw_args_schema :=
                 {| model_name := "run_toolInput";
                    model_fields :=
                      [("text", {| field_description := Some "";
                                   field_annotation := Any |})] |} |} ∧
  (BaseTool_from_langchain (λ n fs, Returns {| model_name := n; model_fields := fs |})
     (λ kw, Returns kw) None
     {| type_name := "Wrapper"; attr_name := None;
        attr_description := None; attr_func := Some (IsCallable method_function);
        attr__run := None; attr_args_schema := None |}).2 =
    Throws (AttributeError "'Wrapper' object has no attribute 'name'").
Proof. split; reflexivity. Qed.

(** Nested generics are printed with their arguments. *)
Example dict_of_lists :
  _get_arg_annotations
    (AGeneric "dict" [AClass "str"; AGeneric "list" [AClass "int"]]) =
  "dict[str, list[int]]".
Proof. reflexivity. Qed.

End ToolsFacts.
